(** * Hogo: the request coalescing tracker and the Ship response object

    A shallow embedding of [src/request-tracker.js] (class [RequestTracker])
    and [src/ship.js] (class [Ship]), with the properties of the coalescing
    core stated over it.

    Modelling conventions.
    - JavaScript values are the inductive [value]; [truthy] is ToBoolean.
      Numbers are integers (no NaN, no fractions).
    - [FlightData] objects are shared between the [flights] map, the handles
      returned to callers and the timer closures.  They live in an object
      store ([heap], a list indexed by reference); the map and the handles
      hold references, so a mutation through one alias is seen by all.
    - Calling a waiter callback appends the arguments to the trace [calls];
      the callback then returns or throws, as decided by its [cb_body].
      Module [Tracker] gives the methods with waiters that do nothing else.
      A waiter is JavaScript code and may call the tracker while it is being
      notified, between [flightData.completed = true] and
      [this.flights.delete(key)] of [completeFlight]: module [Reentrant]
      gives the same methods with such waiters, and coincides with [Tracker]
      when no waiter calls the tracker ([run_quiet]).  What holds in every
      state that the tracker reaches is proved over [Reentrant]
      ([run_sound]); the states of [Client.run] are among them.
    - [setTimeout]/[clearTimeout] are a table of armed timers that keeps, for
      each timer, the key its closure captured and the delay argument of the
      call as it was passed (Node itself waits 1 ms when the argument is
      outside 1..2^31-1); the event loop firing a timer is the explicit
      operation [fireTimer].  [Date.now()] is an argument. *)

From stdpp Require Import gmap strings list fin_maps.
From Stdlib Require Import ZArith Ascii.

Local Open Scope string_scope.
Local Open Scope Z_scope.
Local Open Scope list_scope.

(** ** JavaScript values *)

#[local] Set Warnings "-register-all".

Inductive value : Type :=
  | VUndefined
  | VNull
  | VBool (b : bool)
  | VNum (n : Z)
  | VStr (s : string)
  | VBuffer (bytes : string)
  | VError (message : string)
  | VObject (fields : list (string * value)).

(** ToBoolean: [undefined], [null], [false], [0] and the empty string are
    falsy, every object (buffers and errors included) is truthy. *)
Definition truthy (v : value) : bool :=
  match v with
  | VUndefined | VNull => false
  | VBool b => b
  | VNum n => negb (Z.eqb n 0)
  | VStr s => negb (String.eqb s "")
  | VBuffer _ | VError _ | VObject _ => true
  end.

(** How a call ends: it returns a value or throws one. *)
Inductive completion (A : Type) : Type :=
  | Returned (a : A)
  | Thrown (e : value).
Arguments Returned {A} a.
Arguments Thrown {A} e.

Definition threw {A} (c : completion A) : bool :=
  match c with Returned _ => false | Thrown _ => true end.

(** ** request-tracker.js *)

Module Tracker.

(** A waiter callback [(error, result) => ...]. *)
Record Callback := mkCallback {
  cb_id : nat;
  cb_body : value → value → completion unit;
}.

(** One invocation of a waiter callback: who, with which [error] and
    [result] arguments. *)
Record Delivery := mkDelivery {
  dl_cb : nat;
  dl_error : value;
  dl_result : value;
}.

Record FlightData := mkFlightData {
  key : string;
  startTime : Z;
  waiters : list Callback;
  result : value;
  error : value;
  completed : bool;
  timeoutHandle : option nat;      (* [null] or the timer *)
}.

Record State := mkState {
  flights : gmap string nat;       (* this.flights : Map<flightKey, FlightData> *)
  timeoutMs : Z;                   (* this.timeoutMs *)
  heap : list FlightData;          (* the FlightData objects, by reference *)
  timers : gmap nat (string * Z);  (* armed timers: captured key, delay argument *)
  nextTimer : nat;
  calls : list Delivery;           (* trace of waiter callback invocations *)
  console : list value;            (* what console.error received *)
}.

(** [new RequestTracker(timeoutMs)] *)
Definition constructor (timeoutMs : Z) : State :=
  mkState ∅ timeoutMs [] ∅ 0%nat [] [].

Definition set_flights (f : gmap string nat) (s : State) : State :=
  mkState f (timeoutMs s) (heap s) (timers s) (nextTimer s) (calls s) (console s).
Definition set_heap (h : list FlightData) (s : State) : State :=
  mkState (flights s) (timeoutMs s) h (timers s) (nextTimer s) (calls s) (console s).
Definition set_timers (t : gmap nat (string * Z)) (s : State) : State :=
  mkState (flights s) (timeoutMs s) (heap s) t (nextTimer s) (calls s) (console s).

(** [setTimeout(fn, delay)], where [fn] aborts the flight of [k].  The
    table keeps [delay] as it was passed. *)
Definition setTimeout (k : string) (delay : Z) (s : State) : nat * State :=
  (nextTimer s,
   mkState (flights s) (timeoutMs s) (heap s) (<[nextTimer s := (k, delay)]> (timers s))
           (S (nextTimer s)) (calls s) (console s)).

Definition clearTimeout (t : nat) (s : State) : State :=
  set_timers (delete t (timers s)) s.

Definition console_error (v : value) (s : State) : State :=
  mkState (flights s) (timeoutMs s) (heap s) (timers s) (nextTimer s) (calls s)
          (console s ++ [v]).

(** [callback(error, result)], for a callback that does not call the
    tracker. *)
Definition invoke (cb : Callback) (e r : value) (s : State) : completion unit * State :=
  (cb_body cb e r,
   mkState (flights s) (timeoutMs s) (heap s) (timers s) (nextTimer s)
           (calls s ++ [mkDelivery (cb_id cb) e r]) (console s)).

(** [`${method}:${url}`] *)
Definition createFlightKey (method url : string) : string :=
  method +:+ ":" +:+ url.

Arguments createFlightKey : simpl never.

Definition isInFlight (method url : string) (s : State) : bool :=
  bool_decide (is_Some (flights s !! createFlightKey method url)).

(** The objects returned by [registerFlight] and [getOrCreateFlight].  Their
    closures capture the FlightData reference and, for the originator, the
    key. *)
Inductive Handle : Type :=
  | Originator (flightData : nat) (k : string)
      (* { isNew: true, flightData, addWaiter, setResult, setError } *)
  | Joiner (existing : nat).
      (* { isNew: false, flightData, addWaiter } *)

Definition isNew (h : Handle) : bool :=
  match h with Originator _ _ => true | Joiner _ => false end.

Definition flightData (h : Handle) : nat :=
  match h with Originator r _ => r | Joiner r => r end.

Definition registerFlight (method url : string) (now : Z) (s : State) : Handle * State :=
  let k := createFlightKey method url in
  let ref := length (heap s) in
  let '(t, s1) := setTimeout k (timeoutMs s) s in
  let fd := mkFlightData k now [] VNull VNull false (Some t) in
  let s2 := set_heap (heap s1 ++ [fd]) s1 in
  (Originator ref k, set_flights (<[k := ref]> (flights s2)) s2).

Definition getOrCreateFlight (method url : string) (now : Z) (s : State) : Handle * State :=
  let k := createFlightKey method url in
  match flights s !! k with
  | Some ref =>
      match heap s !! ref with
      | Some existing =>
          if negb (completed existing) then (Joiner ref, s)
          else registerFlight method url now s
      | None => registerFlight method url now s
      end
  | None => registerFlight method url now s
  end.

Definition push_waiter (cb : Callback) (fd : FlightData) : FlightData :=
  mkFlightData (key fd) (startTime fd) (waiters fd ++ [cb]) (result fd) (error fd)
               (completed fd) (timeoutHandle fd).

(** [handle.addWaiter(callback)], for both kinds of handle. *)
Definition addWaiter (h : Handle) (cb : Callback) (s : State) : completion unit * State :=
  match h with
  | Originator ref _ =>
      match heap s !! ref with
      | Some fd =>
          if completed fd then
            if truthy (error fd) then invoke cb (error fd) VNull s
            else invoke cb VNull (result fd) s
          else (Returned (), set_heap (<[ref := push_waiter cb fd]> (heap s)) s)
      | None => (Returned (), s)
      end
  | Joiner ref =>
      match heap s !! ref with
      | Some existing =>
          if truthy (error existing) then invoke cb (error existing) VNull s
          else (Returned (), set_heap (<[ref := push_waiter cb existing]> (heap s)) s)
      | None => (Returned (), s)
      end
  end.

Definition settle (e r : value) (fd : FlightData) : FlightData :=
  mkFlightData (key fd) (startTime fd) (waiters fd) r e true (timeoutHandle fd).

(** The body of the [forEach] in [completeFlight], try/catch included. *)
Definition notify (e r : value) (s : State) (cb : Callback) : State :=
  let '(c, s') := if truthy e then invoke cb e VNull s else invoke cb VNull r s in
  match c with
  | Returned _ => s'
  | Thrown callbackError => console_error callbackError s'
  end.

Definition completeFlight (k : string) (e r : value) (s : State) : State :=
  match flights s !! k with
  | None => s
  | Some ref =>
      match heap s !! ref with
      | None => s
      | Some fd =>
          let s1 := match timeoutHandle fd with
                    | Some t => clearTimeout t s
                    | None => s
                    end in
          let s2 := set_heap (<[ref := settle e r fd]> (heap s1)) s1 in
          let s3 := foldl (notify e r) s2 (waiters fd) in
          set_flights (delete k (flights s3)) s3
      end
  end.

Definition abortFlight (k : string) (e : value) (s : State) : State :=
  match flights s !! k with
  | Some ref =>
      match heap s !! ref with
      | Some fd => if negb (completed fd) then completeFlight k e VNull s else s
      | None => s
      end
  | None => s
  end.

(** [handle.setResult(result)] and [handle.setError(error)]; a joiner's
    handle has neither, so the call is a TypeError. *)
Definition not_a_function : value := VError "not a function".

Definition setResult (h : Handle) (r : value) (s : State) : completion unit * State :=
  match h with
  | Originator _ k => (Returned (), completeFlight k VNull r s)
  | Joiner _ => (Thrown not_a_function, s)
  end.

Definition setError (h : Handle) (e : value) (s : State) : completion unit * State :=
  match h with
  | Originator _ k => (Returned (), completeFlight k e VNull s)
  | Joiner _ => (Thrown not_a_function, s)
  end.

(** The timer armed by [registerFlight] goes off. *)
Definition timeoutError : value := VError "Request flight timeout exceeded".

Definition fireTimer (t : nat) (s : State) : State :=
  match timers s !! t with
  | Some (k, _) => abortFlight k timeoutError (set_timers (delete t (timers s)) s)
  | None => s
  end.

Record FlightStat := mkFlightStat {
  st_key : string;
  st_startTime : Z;
  st_waiters : nat;
  st_duration : Z;
}.

Record Stats := mkStats {
  totalInFlight : nat;
  st_flights : list FlightStat;
}.

(** [getStats()]; the per-flight list is in the map's order, not in
    insertion order. *)
Definition getStats (now : Z) (s : State) : Stats :=
  mkStats (size (flights s))
    (omap (λ kr, (λ f, mkFlightStat (key f) (startTime f) (length (waiters f))
                                     (now - startTime f)) <$> heap s !! kr.2)
          (map_to_list (flights s))).

Definition clear (s : State) : State :=
  let s1 := foldl (λ acc kr, match heap acc !! kr.2 with
                             | Some fd => match timeoutHandle fd with
                                          | Some t => clearTimeout t acc
                                          | None => acc
                                          end
                             | None => acc
                             end) s (map_to_list (flights s)) in
  set_flights ∅ s1.

End Tracker.

(** ** Clients of the tracker

    A client holds the handles it was given and calls the tracker one
    operation at a time (the tracker runs on one event loop, so operations do
    not interleave).  A script is a list of such operations; handles are
    named by the position at which they were handed out. *)

Module Client.
Import Tracker.

Inductive Op : Type :=
  | JoinOrStart (method url : string) (now : Z)   (* getOrCreateFlight(method, url) *)
  | AddWaiter (h : nat) (cb : Callback)           (* handle.addWaiter(cb) *)
  | SetResult (h : nat) (r : value)               (* handle.setResult(r) *)
  | SetError (h : nat) (e : value)                (* handle.setError(e) *)
  | TimerFires (t : nat).                         (* the event loop runs timer t *)

Record Session := mkSession {
  world : State;
  handles : list Handle;
}.

Definition step (c : Session) (op : Op) : Session :=
  match op with
  | JoinOrStart method url now =>
      let '(h, s) := getOrCreateFlight method url now (world c) in
      mkSession s (handles c ++ [h])
  | AddWaiter i cb =>
      match handles c !! i with
      | Some h => mkSession (addWaiter h cb (world c)).2 (handles c)
      | None => c
      end
  | SetResult i r =>
      match handles c !! i with
      | Some h => mkSession (setResult h r (world c)).2 (handles c)
      | None => c
      end
  | SetError i e =>
      match handles c !! i with
      | Some h => mkSession (setError h e (world c)).2 (handles c)
      | None => c
      end
  | TimerFires t => mkSession (fireTimer t (world c)) (handles c)
  end.

Definition start (timeoutMs : Z) : Session :=
  mkSession (constructor timeoutMs) [].

Definition run (timeoutMs : Z) (ops : list Op) : Session :=
  foldl step (start timeoutMs) ops.

(** The decisions handed out so far: [true] is Originate, [false] is Wait. *)
Definition decisions (c : Session) : list bool := isNew <$> handles c.

End Client.

(** ** Waiters that call the tracker

    A waiter runs inside the [forEach] of [completeFlight] (after the record
    was marked completed, before the key is deleted) or inside [addWaiter]
    on a completed record.  Its body may itself call [getOrCreateFlight],
    [addWaiter], [setResult] and [setError]; [Prog] is the sequence of those
    calls, each chosen after seeing the session the previous one left.  The
    body of a callback is found by the callback's identifier; what a tracker
    call inside a body throws is taken as caught by the body, and the body
    ends as its [cb_body] says.

    The methods below are those of [Tracker] with the callback invocation
    [call] as a parameter.  Calls nest ([completeFlight] calls a waiter that
    calls [setResult] that calls a waiter ...), so the invocation is defined
    by recursion on a bound [depth] of the nesting; [None] means that the
    bound was reached, and a greater bound gives the same result where a
    smaller one gives any ([run_deeper]).  A waiter that completes its own
    key from inside its notification makes [completeFlight] call it again
    without end (the record is still in the map): such a run is [None] at
    every depth. *)

Module Reentrant.
Import Tracker Client.

Inductive Prog : Type :=
  | Done
  | Call (op : Op) (next : Session → Prog).

(** The body of the callback with a given identifier, called with
    [(error, result)] in a given session. *)
Definition Bodies : Type := nat → value → value → Session → Prog.

Definition Invoke : Type :=
  Callback → value → value → Session → option (completion unit * Session).

Definition on_world (f : State → State) (c : Session) : Session :=
  mkSession (f (world c)) (handles c).

Section Calls.

Variable call : Invoke.

(** [handle.addWaiter(callback)] (request-tracker.js l.54-66 and l.87-93) *)
Definition addWaiter (h : Handle) (cb : Callback) (c : Session)
    : option (completion unit * Session) :=
  match h with
  | Originator ref _ =>
      match heap (world c) !! ref with
      | Some fd =>
          if completed fd then
            if truthy (error fd) then call cb (error fd) VNull c
            else call cb VNull (result fd) c
          else Some (Returned (),
                     on_world (λ s, set_heap (<[ref := push_waiter cb fd]> (heap s)) s) c)
      | None => Some (Returned (), c)
      end
  | Joiner ref =>
      match heap (world c) !! ref with
      | Some existing =>
          if truthy (error existing) then call cb (error existing) VNull c
          else Some (Returned (),
                     on_world (λ s, set_heap (<[ref := push_waiter cb existing]> (heap s)) s)
                              c)
      | None => Some (Returned (), c)
      end
  end.

(** The body of the [forEach] in [completeFlight] (l.123-134). *)
Definition notify (e r : value) (acc : option Session) (cb : Callback) : option Session :=
  match acc with
  | None => None
  | Some c =>
      match (if truthy e then call cb e VNull c else call cb VNull r c) with
      | Some (Returned _, c') => Some c'
      | Some (Thrown callbackError, c') => Some (on_world (console_error callbackError) c')
      | None => None
      end
  end.

(** [completeFlight(key, error, result)] (l.107-138).  The [forEach] visits
    the waiters that are queued when it starts; the waiters run in the state
    the earlier ones left; [this.flights.delete(key)] comes last and removes
    whatever the map holds under the key by then. *)
Definition completeFlight (k : string) (e r : value) (c : Session) : option Session :=
  match flights (world c) !! k with
  | None => Some c
  | Some ref =>
      match heap (world c) !! ref with
      | None => Some c
      | Some fd =>
          let s1 := match timeoutHandle fd with
                    | Some t => clearTimeout t (world c)
                    | None => world c
                    end in
          let s2 := set_heap (<[ref := settle e r fd]> (heap s1)) s1 in
          match foldl (notify e r) (Some (mkSession s2 (handles c))) (waiters fd) with
          | Some c3 => Some (on_world (λ s, set_flights (delete k (flights s)) s) c3)
          | None => None
          end
      end
  end.

(** [abortFlight(key, error)] (l.143-148) *)
Definition abortFlight (k : string) (e : value) (c : Session) : option Session :=
  match flights (world c) !! k with
  | Some ref =>
      match heap (world c) !! ref with
      | Some fd => if negb (completed fd) then completeFlight k e VNull c else Some c
      | None => Some c
      end
  | None => Some c
  end.

Definition setResult (h : Handle) (r : value) (c : Session)
    : option (completion unit * Session) :=
  match h with
  | Originator _ k => pair (Returned ()) <$> completeFlight k VNull r c
  | Joiner _ => Some (Thrown not_a_function, c)
  end.

Definition setError (h : Handle) (e : value) (c : Session)
    : option (completion unit * Session) :=
  match h with
  | Originator _ k => pair (Returned ()) <$> completeFlight k e VNull c
  | Joiner _ => Some (Thrown not_a_function, c)
  end.

(** The timer armed by [registerFlight] goes off (l.46-48). *)
Definition fireTimer (t : nat) (c : Session) : option Session :=
  match timers (world c) !! t with
  | Some (k, _) =>
      abortFlight k timeoutError (on_world (λ s, set_timers (delete t (timers s)) s) c)
  | None => Some c
  end.

(** One operation of a client. *)
Definition step (c : Session) (op : Op) : option Session :=
  match op with
  | JoinOrStart method url now =>
      let '(h, s) := getOrCreateFlight method url now (world c) in
      Some (mkSession s (handles c ++ [h]))
  | AddWaiter i cb =>
      match handles c !! i with
      | Some h => snd <$> addWaiter h cb c
      | None => Some c
      end
  | SetResult i r =>
      match handles c !! i with
      | Some h => snd <$> setResult h r c
      | None => Some c
      end
  | SetError i e =>
      match handles c !! i with
      | Some h => snd <$> setError h e c
      | None => Some c
      end
  | TimerFires t => fireTimer t c
  end.

(** One call made by the body of a waiter.  The event loop runs no timer
    while a callback is running. *)
Definition perform (c : Session) (op : Op) : option Session :=
  match op with
  | TimerFires _ => Some c
  | _ => step c op
  end.

Fixpoint exec (p : Prog) (c : Session) : option Session :=
  match p with
  | Done => Some c
  | Call op next =>
      match perform c op with
      | Some c' => exec (next c') c'
      | None => None
      end
  end.

End Calls.

(** [callback(error, result)]: the call goes on the trace, the body runs,
    and the callback returns or throws. *)
Fixpoint invoke (bodies : Bodies) (depth : nat) : Invoke :=
  match depth with
  | O => λ _ _ _ _, None
  | S d => λ cb e r c,
      let c1 := on_world (λ s, (Tracker.invoke cb e r s).2) c in
      match exec (invoke bodies d) (bodies (cb_id cb) e r c1) c1 with
      | Some c' => Some (cb_body cb e r, c')
      | None => None
      end
  end.

(** A client script run from a new tracker. *)
Definition run (bodies : Bodies) (depth : nat) (timeoutMs : Z) (ops : list Op)
    : option Session :=
  foldl (λ acc op, match acc with
                   | Some c => step (invoke bodies depth) c op
                   | None => None
                   end) (Some (start timeoutMs)) ops.

End Reentrant.

(** ** ship.js *)

Module ShipObject.

(** The calls a Ship makes on the underlying [res]. *)
Inductive ResCall : Type :=
  | SetHeader (name value : value)
  | WriteHead (statusCode : value) (headers : list (string * value))
  | End (payload : value).

Record Ship := mkShip {
  res : list ResCall;        (* what [this.res] has accepted so far *)
  headersSent : bool;
  statusCode : value;
  _responseData : value;
  _contentType : value;
  console : list value;      (* what console.error received *)
}.

(** [new Ship(res)] *)
Definition constructor (log : list ResCall) : Ship :=
  mkShip log false (VNum 200) VNull VNull [].

(** What a method hands back: [this] (fluent interface) or a value. *)
Inductive Reply : Type :=
  | This
  | Value (v : value).

(** Computations over the ship that may throw. *)
Definition M (A : Type) : Type := Ship → completion A * Ship.

Definition ret {A} (a : A) : M A := λ sh, (Returned a, sh).

Definition bind {A B} (m : M A) (f : A → M B) : M B :=
  λ sh, match m sh with
        | (Returned a, sh') => f a sh'
        | (Thrown e, sh') => (Thrown e, sh')
        end.

Definition lift {A} (c : completion A) : M A := λ sh, (c, sh).

Definition modify (f : Ship → Ship) : M unit := λ sh, (Returned (), f sh).

Notation "'let!' x ':=' m 'in' k" := (bind m (λ x, k))
  (at level 10, x name, m at level 200, k at level 200).
Notation "'run!' m 'in' k" := (bind m (λ _, k))
  (at level 10, m at level 200, k at level 200).

Section Methods.

(** The platform: [JSON.stringify], [String], [Buffer.byteLength], and
    whether [res] rejects a call (given what it has accepted so far) by
    throwing. *)
Variable JSON_stringify : value → completion value.
Variable String_ : value → completion value.
Variable Buffer_byteLength : value → completion value.
Variable res_rejects : list ResCall → ResCall → option value.

Definition res_call (c : ResCall) : M unit :=
  λ sh, match res_rejects (res sh) c with
        | Some e => (Thrown e, sh)
        | None => (Returned (),
                   mkShip (res sh ++ [c]) (headersSent sh) (statusCode sh)
                          (_responseData sh) (_contentType sh) (console sh))
        end.

Definition console_error (v : value) : M unit :=
  modify (λ sh, mkShip (res sh) (headersSent sh) (statusCode sh)
                       (_responseData sh) (_contentType sh) (console sh ++ [v])).

Definition set_statusCode (code : value) : M unit :=
  modify (λ sh, mkShip (res sh) (headersSent sh) code
                       (_responseData sh) (_contentType sh) (console sh)).

Definition set_responseData (data : value) : M unit :=
  modify (λ sh, mkShip (res sh) (headersSent sh) (statusCode sh)
                       data (_contentType sh) (console sh)).

Definition set_contentType (ct : value) : M unit :=
  modify (λ sh, mkShip (res sh) (headersSent sh) (statusCode sh)
                       (_responseData sh) ct (console sh)).

Definition set_headersSent (b : bool) : M unit :=
  modify (λ sh, mkShip (res sh) b (statusCode sh)
                       (_responseData sh) (_contentType sh) (console sh)).

Definition already_sent : M Reply :=
  run! console_error (VStr "[Hogo] Headers already sent") in ret (Value VUndefined).

(** A default parameter value applies when the argument is [undefined]. *)
Definition default (d v : value) : value :=
  match v with VUndefined => d | _ => v end.

Definition status (code : value) : M Reply :=
  λ sh, if headersSent sh then ret This sh
        else (run! set_statusCode code in ret This) sh.

Definition header (name value : value) : M Reply :=
  λ sh, if headersSent sh then ret This sh
        else (run! res_call (SetHeader name value) in ret This) sh.

Definition this_statusCode : M value := λ sh, (Returned (statusCode sh), sh).

Definition deliver (data contentType : value) : M Reply :=
  let contentType := default (VStr "application/octet-stream") contentType in
  λ sh, if headersSent sh then already_sent sh
        else (run! set_responseData data in
              run! set_contentType contentType in
              let! code := this_statusCode in
              run! res_call (WriteHead code [("Content-Type", contentType)]) in
              run! match data with
                   | VStr _ => res_call (End data)
                   | VBuffer _ => res_call (End data)
                   | _ => let! s := lift (String_ data) in res_call (End s)
                   end in
              run! set_headersSent true in
              ret (Value data)) sh.

(** The common tail of [json], [text], [html] and [error]. *)
Definition send (code : M value) (contentType payload : value) : M unit :=
  let! len := lift (Buffer_byteLength payload) in
  let! c := code in
  run! res_call (WriteHead c [("Content-Type", contentType); ("Content-Length", len)]) in
  run! res_call (End payload) in
  set_headersSent true.

Definition json (data : value) : M Reply :=
  λ sh, if headersSent sh then already_sent sh
        else (run! set_responseData data in
              run! set_contentType (VStr "application/json; charset=utf-8") in
              let! payload := lift (JSON_stringify data) in
              run! send this_statusCode (VStr "application/json; charset=utf-8") payload in
              ret (Value data)) sh.

Definition text (data : value) : M Reply :=
  λ sh, if headersSent sh then already_sent sh
        else (run! set_responseData data in
              run! set_contentType (VStr "text/plain; charset=utf-8") in
              let! payload := lift (String_ data) in
              run! send this_statusCode (VStr "text/plain; charset=utf-8") payload in
              ret (Value data)) sh.

Definition html (data : value) : M Reply :=
  λ sh, if headersSent sh then already_sent sh
        else (run! set_responseData data in
              run! set_contentType (VStr "text/html; charset=utf-8") in
              let! payload := lift (String_ data) in
              run! send this_statusCode (VStr "text/html; charset=utf-8") payload in
              ret (Value data)) sh.

(** [error(message, code = 500)]; [timestamp] is
    [new Date().toISOString()]. *)
Definition error (message code : value) (timestamp : string) : M Reply :=
  let code := default (VNum 500) code in
  λ sh, if headersSent sh then already_sent sh
        else (let errorData := VObject [("error", message); ("status", code);
                                        ("timestamp", VStr timestamp)] in
              run! set_responseData errorData in
              run! set_contentType (VStr "application/json; charset=utf-8") in
              let! payload := lift (JSON_stringify errorData) in
              run! send (ret code) (VStr "application/json; charset=utf-8") payload in
              ret (Value errorData)) sh.

Definition isHeadersSent (sh : Ship) : bool := headersSent sh.

Definition getResponseContext (sh : Ship) : value :=
  VObject [("data", _responseData sh); ("contentType", _contentType sh);
           ("statusCode", statusCode sh)].

(** A method call on the ship. *)
Inductive Call : Type :=
  | CallStatus (code : value)
  | CallHeader (name value : value)
  | CallDeliver (data contentType : value)
  | CallJson (data : value)
  | CallText (data : value)
  | CallHtml (data : value)
  | CallError (message code : value) (timestamp : string).

Definition sends (c : Call) : bool :=
  match c with CallStatus _ | CallHeader _ _ => false | _ => true end.

Definition exec (c : Call) : M Reply :=
  match c with
  | CallStatus code => status code
  | CallHeader name value => header name value
  | CallDeliver data contentType => deliver data contentType
  | CallJson data => json data
  | CallText data => text data
  | CallHtml data => html data
  | CallError message code timestamp => error message code timestamp
  end.

(** A caller that goes on after an exception. *)
Definition exec_all (cs : list Call) (sh : Ship) : Ship :=
  foldl (λ acc c, (exec c acc).2) sh cs.

(** How many responses [res] has been asked to finish. *)
Definition isEnd (c : ResCall) : bool :=
  match c with End _ => true | _ => false end.

Definition ended (log : list ResCall) : nat :=
  length (filter (λ c, isEnd c = true) log).

End Methods.
End ShipObject.

(** ** hogo.js: the callbacks of [handleRequest] and the error handler

    The synchronous functions of [src/hogo.js] that work on a ship: the
    waiter of a coalesced request, the listener of the originating request
    and [defaultErrorHandler].  [res] is the response object the ship was
    created with, so writes made directly on it land in the same log. *)

Module HogoApp.
Import ShipObject.

(** [v.name], for the properties the code reads ([message], [statusCode],
    [data], [contentType]): reading from [null] or [undefined] is a
    TypeError, an [Error] has its [message], an object its own properties
    (the names of an object are distinct), anything else has none. *)
Definition getProp (v : value) (name : string) : completion value :=
  match v with
  | VUndefined | VNull => Thrown (VError "Cannot read properties of null or undefined")
  | VObject fields =>
      Returned (match list_find (λ kv, kv.1 = name) fields with
                | Some (_, kv) => kv.2
                | None => VUndefined
                end)
  | VError message =>
      Returned (if String.eqb name "message" then VStr message else VUndefined)
  | _ => Returned VUndefined
  end.

(** [a || b] *)
Definition or_else (a b : value) : value := if truthy a then a else b.

(** [typeof data === 'object'] *)
Definition typeof_object (data : value) : bool :=
  match data with
  | VNull | VObject _ | VError _ | VBuffer _ => true
  | _ => false
  end.

Section Callbacks.

Variable JSON_stringify : value → completion value.
Variable String_ : value → completion value.
Variable Buffer_byteLength : value → completion value.
Variable res_rejects : list ResCall → ResCall → option value.

Local Abbreviation res_call := (res_call res_rejects).
Local Abbreviation ship_error :=
  (ShipObject.error JSON_stringify Buffer_byteLength res_rejects).

(** The callback a coalesced request registers with [addWaiter]
    (lines 104-128). *)
Definition coalescedWaiter (timestamp : string) (error update : value) : M Reply :=
  if truthy error then
    let! message := lift (getProp error "message") in
    ship_error message (VNum 500) timestamp
  else
    let! data := lift (getProp update "data") in
    let! contentType := lift (getProp update "contentType") in
    let! statusCode := lift (getProp update "statusCode") in
    let! payload := match data with
                    | VBuffer _ => ret data
                    | _ => if typeof_object data then lift (JSON_stringify data)
                           else lift (String_ data)
                    end in
    let! len := lift (Buffer_byteLength payload) in
    run! res_call (WriteHead statusCode
                     [("Content-Type",
                       or_else contentType (VStr "application/json; charset=utf-8"));
                      ("X-Hogo-Coalesced", VStr "true");
                      ("Content-Length", len)]) in
    run! res_call (End payload) in
    ret (Value VUndefined).

(** The callback the originating request registers (lines 136-140). *)
Definition originatorListener (timestamp : string) (error : value) : M Reply :=
  λ sh, if truthy error && negb (isHeadersSent sh) then
          (let! message := lift (getProp error "message") in
           run! ship_error message (VNum 500) timestamp in
           ret (Value VUndefined)) sh
        else ret (Value VUndefined) sh.

(** [defaultErrorHandler(ship, error)]; the two arguments of its
    [console.error] are logged one after the other. *)
Definition defaultErrorHandler (timestamp : string) (error : value) : M Reply :=
  λ sh, if negb (isHeadersSent sh) then
          (let! message := lift (getProp error "message") in
           let! statusCode := lift (getProp error "statusCode") in
           run! ship_error (or_else message (VStr "Internal Server Error"))
                           (or_else statusCode (VNum 500)) timestamp in
           ret (Value VUndefined)) sh
        else
          (run! console_error (VStr "[Hogo] Error occurred after headers sent:") in
           run! console_error error in
           ret (Value VUndefined)) sh.

End Callbacks.
End HogoApp.

(** ** router.js

    Routes and the router.  The regular expression a route compiles its
    pattern to is kept as what [this.regex.exec(path)] gives: [None] for
    [null], or the captured groups [match[1]], [match[2]], ...  The handler
    of a route is an opaque identifier. *)

Module RouterModel.

Record Route := mkRoute {
  method : string;
  pattern : string;
  handler : nat;
  paramNames : list string;
  regex : string → option (list value);
}.

(** The [params] object, as the list of its own properties in the order in
    which they were created.  A JavaScript object enumerates the properties
    whose names are array indices first, so the list is read by name and
    its order stands for nothing. *)
Definition Params : Type := list (string * value).

(** [params[name] = v] on an ordinary object: an existing property is
    overwritten in place, a new one is added at the end, and assigning a
    primitive to [__proto__] does nothing. *)
Fixpoint assign (params : Params) (name : string) (v : value) : Params :=
  match params with
  | [] => [(name, v)]
  | (n, w) :: rest =>
      if String.eqb n name then (n, v) :: rest else (n, w) :: assign rest name v
  end.

Definition obj_set (params : Params) (name : string) (v : value) : Params :=
  if String.eqb name "__proto__" then params else assign params name v.

(** [url.split('?')[0]] *)
Fixpoint before_query (url : string) : string :=
  match url with
  | EmptyString => EmptyString
  | String c rest => if Ascii.eqb c "?"%char then EmptyString
                     else String c (before_query rest)
  end.

Section Routing.

(** The platform: [String.prototype.toUpperCase], [decodeURIComponent]
    (which throws on a malformed escape), and [compilePattern], which gives
    the parameter names it pushed and the compiled regular expression. *)
Variable toUpperCase : string → string.
Variable decodeURIComponent : value → completion value.
Variable compilePattern : string → list string * (string → option (list value)).

(** [new Route(method, pattern, handler)] *)
Definition newRoute (method pattern : string) (handler : nat) : Route :=
  let '(names, re) := compilePattern pattern in
  mkRoute (toUpperCase method) pattern handler names re.

(** The loop of [match] over [paramNames], from index [i] on; [groups] is
    [match[1..]], and an index past its end reads [undefined]. *)
Fixpoint fill (names : list string) (i : nat) (groups : list value)
    (params : Params) : completion Params :=
  match names with
  | [] => Returned params
  | name :: rest =>
      match decodeURIComponent (nth i groups VUndefined) with
      | Returned v => fill rest (S i) groups (obj_set params name v)
      | Thrown e => Thrown e
      end
  end.

(** [route.match(method, url)] *)
Definition match_ (route : Route) (method url : string) : completion (bool * Params) :=
  if negb (String.eqb method (RouterModel.method route)) then Returned (false, [])
  else
    let path := before_query url in
    match regex route path with
    | None => Returned (false, [])
    | Some groups =>
        match fill (paramNames route) 0 groups [] with
        | Returned params => Returned (true, params)
        | Thrown e => Thrown e
        end
    end.

(** [this.routes] *)
Definition Router : Type := list Route.

Definition constructor : Router := [].

Definition bind (method pattern : string) (handler : nat) (routes : Router) : Router :=
  routes ++ [newRoute method pattern handler].

(** [findRoute(method, url)]; [None] is [route: null]. *)
Fixpoint findRoute (routes : Router) (method url : string)
    : completion (option Route * Params) :=
  match routes with
  | [] => Returned (None, [])
  | route :: rest =>
      match match_ route method url with
      | Returned (true, params) => Returned (Some route, params)
      | Returned (false, _) => findRoute rest method url
      | Thrown e => Thrown e
      end
  end.

Definition getRoutes (routes : Router) : list Route := routes.

Definition clear (routes : Router) : Router := [].

Definition get := bind "GET".
Definition post := bind "POST".
Definition put := bind "PUT".
Definition delete := bind "DELETE".
Definition patch := bind "PATCH".
Definition head := bind "HEAD".
Definition options := bind "OPTIONS".

End Routing.
End RouterModel.

Import Tracker Client.

(** ** Vocabulary of the properties *)

(** *** Traces and invariants *)

(** What the fan-out appends to the trace of callback invocations. *)
Definition deliveries (e r : value) (ws : list Callback) : list Delivery :=
  (λ cb, if truthy e then mkDelivery (cb_id cb) e VNull
         else mkDelivery (cb_id cb) VNull r) <$> ws.

(** What the [catch] of the fan-out hands to [console.error]: the exceptions
    of the waiters that threw, in order. *)
Definition caught (e r : value) (ws : list Callback) : list value :=
  omap (λ cb, match (if truthy e then cb_body cb e VNull else cb_body cb VNull r) with
              | Thrown callbackError => Some callbackError
              | Returned _ => None
              end) ws.

(** *** Waiters that call the tracker *)

(** Waiters that do not call the tracker. *)
Definition quiet (bodies : Reentrant.Bodies) : Prop :=
  ∀ n e r c, bodies n e r c = Reentrant.Done.

(** From [s] to [s'] the trace of calls has only grown, no record has left
    the store and no completed record is pending again. *)
Definition grows (s s' : State) : Prop :=
  calls s `prefix_of` calls s' ∧
  ∀ ref fd, heap s !! ref = Some fd →
    ∃ fd', heap s' !! ref = Some fd' ∧ (completed fd = true → completed fd' = true).

(** Invoking a callback puts the call on the trace first. *)
Definition announces (call : Reentrant.Invoke) : Prop :=
  ∀ cb e r c res c',
    call cb e r c = Some (res, c') →
    grows (world c) (world c') ∧
    (calls (world c) ++ [mkDelivery (cb_id cb) e r]) `prefix_of` calls (world c').

(** One way of invoking callbacks gives every result that another gives. *)
Definition extends (call call' : Reentrant.Invoke) : Prop :=
  ∀ cb e r c x, call cb e r c = Some x → call' cb e r c = Some x.

(** Waiters that, at most, join or start flights when they are notified. *)
Inductive joins : Reentrant.Prog → Prop :=
  | joins_done : joins Reentrant.Done
  | joins_call method url now next :
      (∀ c, joins (next c)) →
      joins (Reentrant.Call (JoinOrStart method url now) next).

Definition restarting (bodies : Reentrant.Bodies) : Prop :=
  ∀ n e r c, joins (bodies n e r c).

(** What the tracker keeps whatever its waiters call.  [A] holds the keys
    whose [completeFlight] is notifying its waiters: for these the map may
    hold the completed record.  Every other record in the map is pending,
    filed under its own key, and has its own timer armed with the key and
    the delay argument [ms]; no record holds both an error and a result, and
    a pending record holds neither; a timer that is armed and is the
    [timeoutHandle] of a record carries that record's key. *)
Record sound (ms : Z) (A : gset string) (s : State) : Prop := mkSound {
  sound_delay : timeoutMs s = ms;
  sound_filed : ∀ k ref, flights s !! k = Some ref →
    ∃ fd, heap s !! ref = Some fd ∧ key fd = k ∧
          (k ∈ A ∨ (completed fd = false ∧
                    ∃ t, timeoutHandle fd = Some t ∧ timers s !! t = Some (k, ms)));
  sound_outcome : ∀ ref fd, heap s !! ref = Some fd →
    (error fd = VNull ∨ result fd = VNull) ∧
    (completed fd = false → error fd = VNull ∧ result fd = VNull);
  sound_timer : ∀ ref fd t, heap s !! ref = Some fd → timeoutHandle fd = Some t →
    (t < nextTimer s)%nat ∧ ∀ x, timers s !! t = Some x → x.1 = key fd;
}.

Definition keeps_sound (call : Reentrant.Invoke) : Prop :=
  ∀ ms A cb e r c res c',
    sound ms A (world c) → call cb e r c = Some (res, c') → sound ms A (world c').

(** *** Scenarios *)

(** A waiter that records its arguments and returns. *)
Definition sink (n : nat) : Callback := mkCallback n (λ _ _, Returned ()).

(** A waiter that throws. *)
Definition thrower (n : nat) : Callback :=
  mkCallback n (λ e r, Thrown (VError "waiter failed")).

(** A slow originator whose flight times out; a second flight for the same
    key starts and gets a waiter; then the first originator reports. *)
Definition late_originator_prefix : list Op :=
  [ JoinOrStart "GET" "/slow" 0;
    TimerFires 0;
    JoinOrStart "GET" "/slow" 3000;
    JoinOrStart "GET" "/slow" 3001;
    AddWaiter 2 (sink 7) ].

(** An originator that reports, and reports again after a second flight for
    the same key has started and got a waiter. *)
Definition double_report_prefix : list Op :=
  [ JoinOrStart "GET" "/data" 0;
    SetResult 0 (VStr "first");
    JoinOrStart "GET" "/data" 10;
    JoinOrStart "GET" "/data" 11;
    AddWaiter 2 (sink 7) ].

(** A joiner that registers its waiter only after the flight succeeded. *)
Definition late_joiner_prefix : list Op :=
  [ JoinOrStart "GET" "/data" 0;
    JoinOrStart "GET" "/data" 1;
    SetResult 0 (VStr "payload") ].

(** An originator with two waiters. *)
Definition two_waiters : list Op :=
  [ JoinOrStart "GET" "/data" 0;
    JoinOrStart "GET" "/data" 1;
    AddWaiter 1 (sink 1);
    JoinOrStart "GET" "/data" 2;
    AddWaiter 2 (sink 2) ].

(** The record of [two_waiters] once both waiters are queued. *)
Definition two_waiters_flight : FlightData :=
  mkFlightData "GET:/data" 0 [sink 1; sink 2] VNull VNull false (Some 0%nat).

(** A flight whose second waiter throws. *)
Definition throwing_waiter_script : list Op :=
  [ JoinOrStart "GET" "/data" 0;
    AddWaiter 0 (sink 1);
    AddWaiter 0 (thrower 2);
    AddWaiter 0 (sink 3) ].

Definition throwing_waiter_flight : FlightData :=
  mkFlightData "GET:/data" 0 [sink 1; thrower 2; sink 3] VNull VNull false (Some 0%nat).

(** A waiter (number 1) that, when it is notified, asks for the same url
    again; every other waiter is quiet. *)
Definition retry_bodies : Reentrant.Bodies :=
  λ n _ _ _, if (n =? 1)%nat
             then Reentrant.Call (JoinOrStart "GET" "/data" 5) (λ _, Reentrant.Done)
             else Reentrant.Done.

(** A flight with that waiter, completed by its originator. *)
Definition retry_prefix : list Op :=
  [ JoinOrStart "GET" "/data" 0;
    AddWaiter 0 (sink 1) ].

Definition retry_script : list Op :=
  retry_prefix ++ [ SetResult 0 (VStr "first") ].

(** The tracker as waiter 1 finds it when it is notified by that
    [setResult]: the record is marked completed, its timer is cleared, the
    call is on the trace, and the key is still in the map. *)
Definition retry_fanout : State :=
  mkState {[ "GET:/data" := 0%nat ]} 30000
          [mkFlightData "GET:/data" 0 [sink 1] (VStr "first") VNull true (Some 0%nat)]
          ∅ 1 [mkDelivery 1 VNull (VStr "first")] [].

(** A platform for the examples: every value prints as a fixed string and
    [res] accepts every call. *)
Definition demo_stringify (v : value) : completion value := Returned (VStr "{}").
Definition demo_String (v : value) : completion value := Returned (VStr "text").
Definition demo_byteLength (v : value) : completion value := Returned (VNum 2).
Definition demo_rejects (log : list ShipObject.ResCall) (c : ShipObject.ResCall) :
  option value := None.

(** *** Further vocabulary *)

(** Whether a string has a colon in it. *)
Fixpoint contains_colon (s : string) : bool :=
  match s with
  | EmptyString => false
  | String c r => if Ascii.eqb c ":"%char then true else contains_colon r
  end.

(** Whether a url has a question mark in it. *)
Fixpoint contains_question (s : string) : bool :=
  match s with
  | EmptyString => false
  | String c r => if Ascii.eqb c "?"%char then true else contains_question r
  end.

(** A platform whose [JSON.stringify] throws. *)
Definition failing_stringify (v : value) : completion value :=
  Thrown (VError "Converting circular structure to JSON").

(** A platform for the routing examples: upper-casing leaves the strings
    used alone, decoding is the identity, and every pattern compiles to one
    parameter [id] captured from paths of the form [/users/...]. *)
Definition demo_toUpperCase (s : string) : string := s.
Definition demo_decode (v : value) : completion value := Returned v.
Definition demo_regex (path : string) : option (list value) :=
  match path with
  | String "/" (String "u" (String "s" (String "e" (String "r" (String "s"
      (String "/" rest)))))) =>
      if String.eqb rest "" then None else Some [VStr rest]
  | _ => None
  end.
Definition demo_compile (pattern : string) :
  list string * (string → option (list value)) := (["id"], demo_regex).

(** ** Frame properties of the tracker operations

    What [completeFlight] changes when its waiters do not call the
    tracker. *)

Section Frames.

Lemma notify_frame e r s cb :
  flights (notify e r s cb) = flights s ∧
  heap (notify e r s cb) = heap s ∧
  timers (notify e r s cb) = timers s ∧
  nextTimer (notify e r s cb) = nextTimer s ∧
  calls (notify e r s cb) = calls s ++ deliveries e r [cb].
Proof.
  unfold notify, deliveries, invoke.
  destruct (truthy e); simpl; destruct (cb_body cb _ _); simpl; auto.
Qed.

Lemma fanout_frame e r ws : ∀ s,
  flights (foldl (notify e r) s ws) = flights s ∧
  heap (foldl (notify e r) s ws) = heap s ∧
  timers (foldl (notify e r) s ws) = timers s ∧
  nextTimer (foldl (notify e r) s ws) = nextTimer s ∧
  calls (foldl (notify e r) s ws) = calls s ++ deliveries e r ws.
Proof.
  induction ws as [|cb ws IH]; intros s; simpl.
  - rewrite app_nil_r. auto.
  - destruct (IH (notify e r s cb)) as (Hf & Hh & Ht & Hn & Hc).
    destruct (notify_frame e r s cb) as (Hf1 & Hh1 & Ht1 & Hn1 & Hc1).
    rewrite Hf, Hh, Ht, Hn, Hc, Hf1, Hh1, Ht1, Hn1, Hc1.
    repeat split; auto. rewrite <- app_assoc. reflexivity.
Qed.

(** [completeFlight] on a key that owns a record, spelled out field by
    field. *)
Lemma completeFlight_found k e r s ref fd :
  flights s !! k = Some ref →
  heap s !! ref = Some fd →
  let s' := completeFlight k e r s in
  flights s' = delete k (flights s) ∧
  heap s' = <[ref := settle e r fd]> (heap s) ∧
  calls s' = calls s ++ deliveries e r (waiters fd) ∧
  timers s' = match timeoutHandle fd with
              | Some t => delete t (timers s)
              | None => timers s
              end ∧
  nextTimer s' = nextTimer s.
Proof.
  intros Hk Hr. unfold completeFlight. rewrite Hk, Hr. simpl.
  match goal with |- context [foldl (notify e r) ?s0 ?ws] =>
    destruct (fanout_frame e r ws s0) as (Hf & Hh & Ht & Hn & Hc) end.
  rewrite Hf, Hh, Hc, Ht, Hn. destruct (timeoutHandle fd); simpl; auto.
Qed.

Lemma completeFlight_absent k e r s :
  flights s !! k = None → completeFlight k e r s = s.
Proof. intros Hk. unfold completeFlight. by rewrite Hk. Qed.

End Frames.

(** ** What the tracker keeps whatever the waiters call *)

Section Soundness.

Lemma sound_mono ms A B s : A ⊆ B → sound ms A s → sound ms B s.
Proof.
  intros HAB [Hd Hf Ho Ht]. split; [done| |done|done].
  intros k ref Hk. destruct (Hf _ _ Hk) as (fd & Hfd & Hkey & [HA|Hp]);
    exists fd; split; [done|split; [done|]|done|split; [done|]].
  - left. by apply HAB.
  - by right.
Qed.

(** Fields other than the trace and the console decide soundness. *)
Lemma sound_ext ms A s s' :
  flights s' = flights s → timeoutMs s' = timeoutMs s → heap s' = heap s →
  timers s' = timers s → nextTimer s' = nextTimer s →
  sound ms A s → sound ms A s'.
Proof.
  intros E1 E2 E3 E4 E5 [Hd Hf Ho Ht].
  split; rewrite ?E1, ?E2, ?E3, ?E4, ?E5; done.
Qed.

Lemma sound_register ms A method url now s :
  sound ms A s → sound ms A (registerFlight method url now s).2.
Proof.
  intros [Hd Hf Ho Ht]. unfold registerFlight. simpl. split; simpl.
  - done.
  - intros k ref Hk.
    destruct (decide (k = createFlightKey method url)) as [->|Hne].
    + rewrite lookup_insert_eq in Hk. injection Hk as <-.
      eexists. split; [rewrite lookup_app_r by lia; by rewrite Nat.sub_diag|].
      split; [done|]. right. split; [done|]. eexists. split; [done|].
      rewrite Hd. apply lookup_insert_eq.
    + rewrite lookup_insert_ne in Hk by done.
      destruct (Hf _ _ Hk) as (fd & Hfd & Hkey & Hor).
      exists fd. split; [by apply lookup_app_l_Some|]. split; [done|].
      destruct Hor as [HA|(Hc & t & Hh & Harm)]; [by left|right].
      split; [done|]. exists t. split; [done|].
      destruct (Ht _ _ _ Hfd Hh) as [Hlt _].
      rewrite lookup_insert_ne by lia. done.
  - intros ref fd Hfd. apply lookup_app_Some in Hfd as [Hfd|[_ Hfd]]; [by eapply Ho|].
    destruct (ref - length (heap s))%nat; simpl in Hfd; [|done].
    injection Hfd as <-. simpl. auto.
  - intros ref fd t Hfd Hh. apply lookup_app_Some in Hfd as [Hfd|[_ Hfd]].
    + destruct (Ht _ _ _ Hfd Hh) as [Hlt Hx]. split; [lia|].
      intros x. rewrite lookup_insert_ne by lia. apply Hx.
    + destruct (ref - length (heap s))%nat; simpl in Hfd; [|done].
      injection Hfd as <-. simpl in *. injection Hh as <-. split; [lia|].
      intros x. rewrite lookup_insert_eq. by intros [= <-].
Qed.

Lemma sound_getOrCreateFlight ms A method url now s :
  sound ms A s → sound ms A (getOrCreateFlight method url now s).2.
Proof.
  intros Hs. unfold getOrCreateFlight.
  destruct (flights s !! _) as [ref|]; [|by apply sound_register].
  destruct (heap s !! ref) as [fd|]; [|by apply sound_register].
  destruct (completed fd); simpl; [by apply sound_register|done].
Qed.

(** Replacing a record by one that differs in its queue only. *)
Lemma sound_push ms A ref fd cb s :
  sound ms A s → heap s !! ref = Some fd →
  sound ms A (set_heap (<[ref := push_waiter cb fd]> (heap s)) s).
Proof.
  intros [Hd Hf Ho Ht] Hfd.
  assert (Hlt : (ref < length (heap s))%nat) by by apply lookup_lt_Some in Hfd.
  assert (Hget : ∀ ref' fd', <[ref := push_waiter cb fd]> (heap s) !! ref' = Some fd' →
    ∃ fd0, heap s !! ref' = Some fd0 ∧ key fd' = key fd0 ∧
           completed fd' = completed fd0 ∧ error fd' = error fd0 ∧
           result fd' = result fd0 ∧ timeoutHandle fd' = timeoutHandle fd0).
  { intros ref' fd' H. destruct (decide (ref = ref')) as [<-|Hne].
    - rewrite list_lookup_insert_eq in H by done. injection H as <-. by exists fd.
    - rewrite list_lookup_insert_ne in H by done. by exists fd'. }
  split; simpl.
  - done.
  - intros k ref' Hk. destruct (Hf _ _ Hk) as (fd' & Hfd' & Hkey & Hor).
    destruct (decide (ref = ref')) as [<-|Hne].
    + rewrite Hfd in Hfd'. injection Hfd' as <-.
      exists (push_waiter cb fd). by rewrite list_lookup_insert_eq.
    + exists fd'. by rewrite list_lookup_insert_ne.
  - intros ref' fd' H. destruct (Hget _ _ H) as (fd0 & H0 & _ & -> & -> & -> & _).
    by eapply Ho.
  - intros ref' fd' t H Hh.
    destruct (Hget _ _ H) as (fd0 & H0 & -> & _ & _ & _ & Hh').
    rewrite Hh' in Hh. by eapply Ht.
Qed.

(** The first half of [completeFlight], up to the fan-out. *)
Lemma sound_begin ms A k ref fd e r s :
  sound ms A s → k ∈ A →
  flights s !! k = Some ref → heap s !! ref = Some fd →
  e = VNull ∨ r = VNull →
  sound ms A
    (set_heap (<[ref := settle e r fd]>
                 (heap match timeoutHandle fd with
                       | Some t => clearTimeout t s
                       | None => s
                       end))
              match timeoutHandle fd with
              | Some t => clearTimeout t s
              | None => s
              end).
Proof.
  intros [Hd Hf Ho Ht] HA Hk Hfd Her.
  assert (Hlt : (ref < length (heap s))%nat) by by apply lookup_lt_Some in Hfd.
  destruct (Hf _ _ Hk) as (fd0 & Hfd0 & Hkey & _).
  rewrite Hfd in Hfd0. injection Hfd0 as <-.
  set (s1 := match timeoutHandle fd with Some t => clearTimeout t s | None => s end).
  assert (E1 : flights s1 = flights s) by (unfold s1; by destruct (timeoutHandle fd)).
  assert (E2 : timeoutMs s1 = timeoutMs s) by (unfold s1; by destruct (timeoutHandle fd)).
  assert (E3 : heap s1 = heap s) by (unfold s1; by destruct (timeoutHandle fd)).
  assert (E5 : nextTimer s1 = nextTimer s) by (unfold s1; by destruct (timeoutHandle fd)).
  assert (E4 : ∀ t x, timers s1 !! t = Some x → timers s !! t = Some x).
  { intros t x. unfold s1. destruct (timeoutHandle fd); simpl; [|done].
    rewrite lookup_delete_Some. tauto. }
  assert (E4' : ∀ t x, timers s !! t = Some x → x.1 ≠ k → timers s1 !! t = Some x).
  { intros t x Hx Hne. unfold s1. destruct (timeoutHandle fd) as [t0|] eqn:Hh; simpl; [|done].
    rewrite lookup_delete_ne; [done|]. intros <-.
    destruct (Ht _ _ _ Hfd Hh) as [_ Hown]. specialize (Hown _ Hx). congruence. }
  split; simpl; rewrite ?E1, ?E2, ?E3, ?E5.
  - done.
  - intros k' ref' Hk'. destruct (Hf _ _ Hk') as (fd' & Hfd' & Hkey' & Hor).
    destruct (decide (ref = ref')) as [<-|Hne].
    + rewrite Hfd in Hfd'. injection Hfd' as <-.
      exists (settle e r fd). rewrite list_lookup_insert_eq by done.
      split; [done|]. split; [done|]. left. congruence.
    + exists fd'. rewrite list_lookup_insert_ne by done.
      split; [done|]. split; [done|].
      destruct Hor as [HA'|(Hc & t & Hh & Harm)]; [by left|].
      destruct (decide (k' = k)) as [->|Hkk]; [by left|]. right.
      split; [done|]. exists t. split; [done|]. by apply E4'.
  - intros ref' fd' H. destruct (decide (ref = ref')) as [<-|Hne].
    + rewrite list_lookup_insert_eq in H by done. injection H as <-. simpl.
      split; [tauto|done].
    + rewrite list_lookup_insert_ne in H by done. by eapply Ho.
  - intros ref' fd' t H Hh. destruct (decide (ref = ref')) as [<-|Hne].
    + rewrite list_lookup_insert_eq in H by done. injection H as <-. simpl in *.
      destruct (Ht _ _ _ Hfd Hh) as [Hl Hown]. split; [done|]. intros x Hx.
      apply Hown. by apply E4.
    + rewrite list_lookup_insert_ne in H by done.
      destruct (Ht _ _ _ H Hh) as [Hl Hown]. split; [done|]. intros x Hx.
      apply Hown. by apply E4.
Qed.

(** The last statement of [completeFlight]. *)
Lemma sound_end ms A k s :
  sound ms (A ∪ {[k]}) s → sound ms A (set_flights (delete k (flights s)) s).
Proof.
  intros [Hd Hf Ho Ht]. split; simpl; [done| |done|done].
  intros k' ref Hk'. apply lookup_delete_Some in Hk' as [Hne Hk'].
  destruct (Hf _ _ Hk') as (fd & Hfd & Hkey & Hor). exists fd.
  split; [done|]. split; [done|]. destruct Hor as [HA|Hp]; [left|by right].
  apply elem_of_union in HA as [HA|HA]; [done|]. by apply elem_of_singleton in HA.
Qed.

Lemma sound_unmapped ms A k s :
  sound ms (A ∪ {[k]}) s → flights s !! k = None → sound ms A s.
Proof.
  intros [Hd Hf Ho Ht] Hk. split; [done| |done|done].
  intros k' ref Hk'. destruct (Hf _ _ Hk') as (fd & Hfd & Hkey & Hor). exists fd.
  split; [done|]. split; [done|]. destruct Hor as [HA|Hp]; [left|by right].
  apply elem_of_union in HA as [HA|HA]; [done|].
  apply elem_of_singleton in HA. congruence.
Qed.

Section Calls.

Variable call : Reentrant.Invoke.
Hypothesis call_sound : keeps_sound call.

Lemma sound_addWaiter ms A h cb c res c' :
  sound ms A (world c) → Reentrant.addWaiter call h cb c = Some (res, c') →
  sound ms A (world c').
Proof.
  intros Hs. unfold Reentrant.addWaiter.
  destruct h as [ref k|ref]; (destruct (heap (world c) !! ref) as [fd|] eqn:Hfd;
    [|by intros [= _ <-]]).
  - destruct (completed fd).
    + destruct (truthy (error fd)); by apply call_sound.
    + intros [= _ <-]. simpl. by apply sound_push.
  - destruct (truthy (error fd)); [by apply call_sound|].
    intros [= _ <-]. simpl. by apply sound_push.
Qed.

Lemma sound_fanout ms A e r ws : ∀ c c',
  sound ms A (world c) →
  foldl (Reentrant.notify call e r) (Some c) ws = Some c' →
  sound ms A (world c').
Proof.
  induction ws as [|cb ws IH]; intros c c' Hs; simpl; [by intros [= <-]|].
  destruct (if truthy e then call cb e VNull c else call cb VNull r c)
    as [[res c1]|] eqn:Hcall.
  - assert (Hs1 : sound ms A (world c1)).
    { destruct (truthy e); by eapply call_sound. }
    destruct res; apply IH; [done|].
    simpl. eapply sound_ext; [..|exact Hs1]; done.
  - intros H. exfalso. clear -H. induction ws as [|w ws IHw]; simpl in H; [done|auto].
Qed.

Lemma sound_completeFlight ms A k e r c c' :
  sound ms (A ∪ {[k]}) (world c) → e = VNull ∨ r = VNull →
  Reentrant.completeFlight call k e r c = Some c' →
  sound ms A (world c') ∧ flights (world c') !! k = None.
Proof.
  intros Hs Her. unfold Reentrant.completeFlight.
  destruct (flights (world c) !! k) as [ref|] eqn:Hk.
  2:{ intros [= <-]. split; [by eapply sound_unmapped|done]. }
  destruct (sound_filed _ _ _ Hs _ _ Hk) as (fd & Hfd & _). rewrite Hfd.
  destruct (foldl _ _ _) as [c3|] eqn:Hfold; [|done]. intros [= <-]. simpl.
  split; [|apply lookup_delete_eq]. apply sound_end.
  eapply sound_fanout; [|exact Hfold]. simpl.
  apply (sound_begin ms (A ∪ {[k]}) k ref fd e r (world c)); try done.
  apply elem_of_union_r. by apply elem_of_singleton.
Qed.

Lemma sound_completeFlight_weak ms A k e r c c' :
  sound ms A (world c) → e = VNull ∨ r = VNull →
  Reentrant.completeFlight call k e r c = Some c' →
  sound ms A (world c').
Proof.
  intros Hs Her H. eapply sound_completeFlight; [|done|exact H].
  eapply sound_mono; [|exact Hs]. apply union_subseteq_l.
Qed.

Lemma sound_perform ms A c op c' :
  sound ms A (world c) → Reentrant.perform call c op = Some c' →
  sound ms A (world c').
Proof.
  intros Hs. destruct op as [method url now|i cb|i r|i e|t]; simpl.
  - pose proof (sound_getOrCreateFlight ms A method url now _ Hs) as H.
    destruct (getOrCreateFlight method url now (world c)). by intros [= <-].
  - destruct (handles c !! i) as [h|]; [|by intros [= <-]].
    destruct (Reentrant.addWaiter call h cb c) as [[res c1]|] eqn:Hadd; [|done].
    intros [= <-]. by eapply sound_addWaiter.
  - destruct (handles c !! i) as [[ref k|ref]|]; simpl; [|by intros [= <-]..].
    destruct (Reentrant.completeFlight call k VNull r c) as [c1|] eqn:Hc; [|done].
    intros [= <-]. eapply sound_completeFlight_weak; [done| |exact Hc]. by left.
  - destruct (handles c !! i) as [[ref k|ref]|]; simpl; [|by intros [= <-]..].
    destruct (Reentrant.completeFlight call k e VNull c) as [c1|] eqn:Hc; [|done].
    intros [= <-]. eapply sound_completeFlight_weak; [done| |exact Hc]. by right.
  - by intros [= <-].
Qed.

Lemma sound_exec ms A p : ∀ c c',
  sound ms A (world c) → Reentrant.exec call p c = Some c' → sound ms A (world c').
Proof.
  induction p as [|op next IH]; intros c c' Hs; simpl; [by intros [= <-]|].
  destruct (Reentrant.perform call c op) as [c1|] eqn:Hop; [|done].
  apply IH. by eapply sound_perform.
Qed.

(** A timer going off, between two operations. *)
Lemma sound_fireTimer ms t c c' :
  sound ms ∅ (world c) → Reentrant.fireTimer call t c = Some c' →
  sound ms ∅ (world c') ∧
  ∀ k d, timers (world c) !! t = Some (k, d) → flights (world c') !! k = None.
Proof.
  intros Hs. unfold Reentrant.fireTimer.
  destruct (timers (world c) !! t) as [[k d]|] eqn:Ht; [|by intros [= <-]].
  set (c1 := Reentrant.on_world (λ s, set_timers (delete t (timers s)) s) c).
  assert (Hs1 : sound ms (∅ ∪ {[k]}) (world c1)).
  { destruct Hs as [Hd Hf Ho Htm]. split; simpl; [done| |done|].
    - intros k' ref Hk'. destruct (Hf _ _ Hk') as (fd & Hfd & Hkey & Hor).
      exists fd. split; [done|]. split; [done|].
      destruct Hor as [HA|(Hc & t' & Hh & Harm)]; [by apply elem_of_empty in HA|].
      destruct (decide (k' = k)) as [->|Hne];
        [left; apply elem_of_union_r; by apply elem_of_singleton|right].
      split; [done|]. exists t'. split; [done|].
      rewrite lookup_delete_ne; [done|]. intros <-. congruence.
    - intros ref fd t' Hfd Hh. destruct (Htm _ _ _ Hfd Hh) as [Hl Hown].
      split; [done|]. intros x Hx. apply lookup_delete_Some in Hx as [_ Hx]. auto. }
  unfold Reentrant.abortFlight.
  destruct (flights (world c1) !! k) as [ref|] eqn:Hk.
  2:{ intros [= <-]. split; [by eapply sound_unmapped|]. by intros ? ? [= <- _]. }
  destruct (sound_filed _ _ _ Hs k ref Hk) as (fd & Hfd & _ & [HA|(Hc & _)]);
    [by apply elem_of_empty in HA|].
  change (heap (world c1)) with (heap (world c)). rewrite Hfd, Hc. simpl.
  intros Hcf. destruct (sound_completeFlight ms ∅ k _ _ _ _ Hs1 (or_intror eq_refl) Hcf).
  split; [done|]. by intros ? ? [= <- _].
Qed.

Lemma sound_step ms c op c' :
  sound ms ∅ (world c) → Reentrant.step call c op = Some c' → sound ms ∅ (world c').
Proof.
  intros Hs H. destruct op as [method url now|i cb|i r|i e|t].
  - exact (sound_perform ms ∅ c (JoinOrStart method url now) c' Hs H).
  - exact (sound_perform ms ∅ c (AddWaiter i cb) c' Hs H).
  - exact (sound_perform ms ∅ c (SetResult i r) c' Hs H).
  - exact (sound_perform ms ∅ c (SetError i e) c' Hs H).
  - by destruct (sound_fireTimer ms t c c' Hs H).
Qed.

End Calls.

Lemma invoke_sound bodies depth : keeps_sound (Reentrant.invoke bodies depth).
Proof.
  induction depth as [|d IH]; intros ms A cb e r c res c' Hs; simpl; [done|].
  destruct (Reentrant.exec _ _ _) as [c1|] eqn:Hex; [|done]. intros [= _ <-].
  eapply sound_exec; [exact IH| |exact Hex].
  simpl. eapply sound_ext; [..|exact Hs]; done.
Qed.

Lemma constructor_sound ms : sound ms ∅ (constructor ms).
Proof. split; simpl; try done; intros *; by rewrite ?lookup_empty, ?lookup_nil. Qed.

Lemma run_sound bodies depth ms ops c :
  Reentrant.run bodies depth ms ops = Some c → sound ms ∅ (world c).
Proof.
  unfold Reentrant.run. revert c.
  induction ops as [|op ops IH] using rev_ind; intros c; simpl.
  - intros [= <-]. apply constructor_sound.
  - rewrite foldl_app. simpl.
    destruct (foldl _ _ ops) as [c0|]; [|done].
    intros H. eapply sound_step; [apply invoke_sound|by apply IH|exact H].
Qed.

End Soundness.

(** ** Waiters that do not call the tracker

    With such waiters every operation returns at depth 1 and does what
    [Tracker] says. *)

Section Quiet.

Variable bodies : Reentrant.Bodies.
Hypothesis bodies_quiet : quiet bodies.

Lemma invoke_quiet d cb e r c :
  Reentrant.invoke bodies (S d) cb e r c =
    Some ((invoke cb e r (world c)).1,
          mkSession (invoke cb e r (world c)).2 (handles c)).
Proof. simpl. by rewrite bodies_quiet. Qed.

Lemma fanout_quiet d e r ws : ∀ s hs,
  foldl (Reentrant.notify (Reentrant.invoke bodies (S d)) e r)
        (Some (mkSession s hs)) ws =
    Some (mkSession (foldl (notify e r) s ws) hs).
Proof.
  induction ws as [|cb ws IH]; intros s hs; [done|].
  cbn [foldl]. unfold Reentrant.notify at 2. rewrite !invoke_quiet.
  unfold notify at 2. simpl.
  destruct (truthy e); simpl; destruct (cb_body cb _ _); apply IH.
Qed.

Lemma completeFlight_quiet d k e r c :
  Reentrant.completeFlight (Reentrant.invoke bodies (S d)) k e r c =
    Some (mkSession (completeFlight k e r (world c)) (handles c)).
Proof.
  destruct c as [s hs]. unfold Reentrant.completeFlight, completeFlight.
  cbn [world handles].
  destruct (flights s !! k) as [ref|]; [|done].
  destruct (heap s !! ref) as [fd|]; [|done].
  cbv zeta. by rewrite fanout_quiet.
Qed.

Lemma addWaiter_quiet d h cb c :
  Reentrant.addWaiter (Reentrant.invoke bodies (S d)) h cb c =
    Some ((addWaiter h cb (world c)).1,
          mkSession (addWaiter h cb (world c)).2 (handles c)).
Proof.
  destruct c as [s hs]. unfold Reentrant.addWaiter, addWaiter. cbn [world handles].
  destruct h as [ref k|ref]; (destruct (heap s !! ref) as [fd|]; [|done]).
  - destruct (completed fd); [|done].
    destruct (truthy (error fd)); by rewrite invoke_quiet.
  - destruct (truthy (error fd)); [by rewrite invoke_quiet|done].
Qed.

Lemma step_quiet d c op :
  Reentrant.step (Reentrant.invoke bodies (S d)) c op = Some (step c op).
Proof.
  destruct op as [method url now|i cb|i r|i e|t];
    unfold Reentrant.step, step.
  - by destruct (getOrCreateFlight method url now (world c)).
  - destruct (handles c !! i) as [h|]; [|done]. by rewrite addWaiter_quiet.
  - destruct (handles c !! i) as [[ref k|ref]|]; [|by destruct c..].
    unfold Reentrant.setResult, setResult. by rewrite completeFlight_quiet.
  - destruct (handles c !! i) as [[ref k|ref]|]; [|by destruct c..].
    unfold Reentrant.setError, setError. by rewrite completeFlight_quiet.
  - unfold Reentrant.fireTimer, fireTimer.
    destruct (timers (world c) !! t) as [[k d0]|]; [|by destruct c].
    unfold Reentrant.abortFlight, abortFlight. cbn [world Reentrant.on_world].
    cbn [flights heap set_timers].
    destruct (flights (world c) !! k) as [ref|]; [|done].
    destruct (heap (world c) !! ref) as [fd|]; [|done].
    destruct (completed fd); cbn [negb]; [done|]. by rewrite completeFlight_quiet.
Qed.

Lemma run_quiet d timeoutMs ops :
  Reentrant.run bodies (S d) timeoutMs ops = Some (run timeoutMs ops).
Proof.
  unfold Reentrant.run, run.
  induction ops as [|op ops IH] using rev_ind; [done|].
  rewrite !foldl_app. cbn [foldl]. rewrite IH. apply step_quiet.
Qed.

End Quiet.

(** ** The bound on the nesting only cuts runs off

    A run that returns at one depth returns the same at every greater
    depth. *)

Section Deeper.

Section Calls.

Variables call call' : Reentrant.Invoke.
Hypothesis call_extends : extends call call'.

Lemma fanout_extends e r ws : ∀ acc c',
  foldl (Reentrant.notify call e r) acc ws = Some c' →
  foldl (Reentrant.notify call' e r) acc ws = Some c'.
Proof.
  induction ws as [|cb ws IH]; intros acc c'; [done|]. cbn [foldl].
  destruct acc as [c|].
  - unfold Reentrant.notify at 2 4.
    destruct (if truthy e then call cb e VNull c else call cb VNull r c)
      as [x|] eqn:Hcall.
    + assert (Hcall' : (if truthy e then call' cb e VNull c else call' cb VNull r c)
                       = Some x).
      { destruct (truthy e); by apply call_extends. }
      rewrite Hcall'. apply IH.
    + intros H. exfalso. clear -H.
      induction ws as [|w ws IHw]; simpl in H; [done|auto].
  - intros H. exfalso. clear -H.
    induction ws as [|w ws IHw]; simpl in H; [done|auto].
Qed.

Lemma completeFlight_extends k e r c c' :
  Reentrant.completeFlight call k e r c = Some c' →
  Reentrant.completeFlight call' k e r c = Some c'.
Proof.
  unfold Reentrant.completeFlight.
  destruct (flights (world c) !! k) as [ref|]; [|done].
  destruct (heap (world c) !! ref) as [fd|]; [|done]. cbv zeta.
  destruct (foldl (Reentrant.notify call e r) _ _) as [c3|] eqn:Hfold; [|done].
  by rewrite (fanout_extends _ _ _ _ _ Hfold).
Qed.

Lemma step_extends c op c' :
  Reentrant.step call c op = Some c' → Reentrant.step call' c op = Some c'.
Proof.
  destruct op as [method url now|i cb|i r|i e|t]; unfold Reentrant.step.
  - done.
  - destruct (handles c !! i) as [h|]; [|done]. unfold Reentrant.addWaiter.
    destruct h as [ref k|ref]; (destruct (heap (world c) !! ref) as [fd|]; [|done]).
    + destruct (completed fd); [|done].
      destruct (truthy (error fd)).
      * destruct (call cb (error fd) VNull c) as [x|] eqn:Hc; [|done].
        by rewrite (call_extends _ _ _ _ _ Hc).
      * destruct (call cb VNull (result fd) c) as [x|] eqn:Hc; [|done].
        by rewrite (call_extends _ _ _ _ _ Hc).
    + destruct (truthy (error fd)); [|done].
      destruct (call cb (error fd) VNull c) as [x|] eqn:Hc; [|done].
      by rewrite (call_extends _ _ _ _ _ Hc).
  - destruct (handles c !! i) as [[ref k|ref]|]; [|done..].
    unfold Reentrant.setResult.
    destruct (Reentrant.completeFlight call k VNull r c) as [x|] eqn:Hc; [|done].
    by rewrite (completeFlight_extends _ _ _ _ _ Hc).
  - destruct (handles c !! i) as [[ref k|ref]|]; [|done..].
    unfold Reentrant.setError.
    destruct (Reentrant.completeFlight call k e VNull c) as [x|] eqn:Hc; [|done].
    by rewrite (completeFlight_extends _ _ _ _ _ Hc).
  - unfold Reentrant.fireTimer.
    destruct (timers (world c) !! t) as [[k d0]|]; [|done].
    unfold Reentrant.abortFlight.
    match goal with |- context [flights (world ?c1) !! k] =>
      destruct (flights (world c1) !! k) as [ref|]; [|done];
      destruct (heap (world c1) !! ref) as [fd|]; [|done];
      destruct (completed fd); cbn [negb]; [done|];
      apply completeFlight_extends end.
Qed.

Lemma exec_extends p : ∀ c c',
  Reentrant.exec call p c = Some c' → Reentrant.exec call' p c = Some c'.
Proof.
  induction p as [|op next IH]; intros c c'; simpl; [done|].
  destruct (Reentrant.perform call c op) as [c1|] eqn:Hop; [|done].
  assert (Hop' : Reentrant.perform call' c op = Some c1).
  { destruct op; try exact (step_extends _ _ _ Hop). exact Hop. }
  rewrite Hop'. apply IH.
Qed.

End Calls.

Lemma invoke_unfold bodies d cb e r c :
  Reentrant.invoke bodies (S d) cb e r c =
    match Reentrant.exec (Reentrant.invoke bodies d)
            (bodies (cb_id cb) e r
               (Reentrant.on_world (λ s, (invoke cb e r s).2) c))
            (Reentrant.on_world (λ s, (invoke cb e r s).2) c) with
    | Some c' => Some (cb_body cb e r, c')
    | None => None
    end.
Proof. reflexivity. Qed.

Lemma invoke_deeper bodies d :
  extends (Reentrant.invoke bodies d) (Reentrant.invoke bodies (S d)).
Proof.
  induction d as [|d IH]; intros cb e r c x; [done|].
  rewrite (invoke_unfold bodies d), (invoke_unfold bodies (S d)).
  destruct (Reentrant.exec (Reentrant.invoke bodies d) _ _) as [c'|] eqn:Hex; [|done].
  by rewrite (exec_extends _ _ IH _ _ _ Hex).
Qed.

Lemma run_deeper bodies d timeoutMs ops c :
  Reentrant.run bodies d timeoutMs ops = Some c →
  Reentrant.run bodies (S d) timeoutMs ops = Some c.
Proof.
  unfold Reentrant.run. revert c.
  induction ops as [|op ops IH] using rev_ind; intros c; [done|].
  rewrite !foldl_app. cbn [foldl].
  destruct (foldl _ _ ops) as [c0|]; [|done].
  rewrite (IH c0 eq_refl). apply step_extends, invoke_deeper.
Qed.

Lemma run_at_depth bodies timeoutMs ops c :
  Reentrant.run bodies 1 timeoutMs ops = Some c →
  ∀ d, Reentrant.run bodies (S d) timeoutMs ops = Some c.
Proof. intros H d. induction d as [|d IH]; [done|by apply run_deeper]. Qed.

Lemma step_at_depth bodies c op c' :
  Reentrant.step (Reentrant.invoke bodies 1) c op = Some c' →
  ∀ d, Reentrant.step (Reentrant.invoke bodies (S d)) c op = Some c'.
Proof.
  intros H d. induction d as [|d IH]; [done|].
  exact (step_extends _ _ (invoke_deeper bodies (S d)) _ _ _ IH).
Qed.

End Deeper.

(** ** The fan-out reaches every queued waiter

    Whatever the waiters call, the trace only grows and a completed record
    stays completed; so the waiters queued when [completeFlight] starts are
    all called, in order, with its outcome. *)

Section Growth.

Lemma grows_refl s : grows s s.
Proof. split; [done|]. intros ref fd Hfd. by exists fd. Qed.

Lemma grows_trans s1 s2 s3 : grows s1 s2 → grows s2 s3 → grows s1 s3.
Proof.
  intros [Hp1 Hh1] [Hp2 Hh2]. split; [by etrans|].
  intros ref fd Hfd. destruct (Hh1 _ _ Hfd) as (fd2 & Hfd2 & Hc2).
  destruct (Hh2 _ _ Hfd2) as (fd3 & Hfd3 & Hc3). exists fd3. split; [done|]. auto.
Qed.

(** Replacing a record by one that is completed if the old one was. *)
Lemma grows_insert s ref fd fd' :
  heap s !! ref = Some fd → (completed fd = true → completed fd' = true) →
  grows s (set_heap (<[ref := fd']> (heap s)) s).
Proof.
  intros Hfd Hc. split; [done|]. intros ref0 fd0 Hfd0. simpl.
  destruct (decide (ref = ref0)) as [<-|Hne].
  - exists fd'. rewrite list_lookup_insert_eq by by apply lookup_lt_Some in Hfd.
    split; [done|]. rewrite Hfd in Hfd0. injection Hfd0 as <-. exact Hc.
  - exists fd0. by rewrite list_lookup_insert_ne.
Qed.

Lemma grows_getOrCreateFlight method url now s :
  grows s (getOrCreateFlight method url now s).2.
Proof.
  assert (Hreg : grows s (registerFlight method url now s).2).
  { split; [done|]. intros ref fd Hfd. exists fd. simpl.
    split; [by apply lookup_app_l_Some|done]. }
  unfold getOrCreateFlight. destruct (flights s !! _) as [ref|]; [|done].
  destruct (heap s !! ref) as [fd|]; [|done].
  destruct (completed fd); [done|apply grows_refl].
Qed.

Section Calls.

Variable call : Reentrant.Invoke.
Hypothesis call_announces : announces call.

Lemma fanout_grows e r ws : ∀ c c',
  foldl (Reentrant.notify call e r) (Some c) ws = Some c' →
  grows (world c) (world c') ∧
  ∃ rest, calls (world c') = calls (world c) ++ rest ∧
          deliveries e r ws `sublist_of` rest.
Proof.
  induction ws as [|cb ws IH]; intros c c'.
  - intros [= <-]. split; [apply grows_refl|]. exists []. by rewrite app_nil_r.
  - cbn [foldl]. unfold Reentrant.notify at 2.
    destruct (if truthy e then call cb e VNull c else call cb VNull r c)
      as [[res c1]|] eqn:Hcall.
    2:{ intros H. exfalso. clear -H.
        induction ws as [|w ws IHw]; simpl in H; [done|auto]. }
    assert (H1 : grows (world c) (world c1) ∧
                 (calls (world c) ++ deliveries e r [cb]) `prefix_of` calls (world c1)).
    { unfold deliveries. simpl. destruct (truthy e); by apply call_announces in Hcall. }
    destruct H1 as [Hg1 [m1 Hm1]].
    assert (Hnext : ∀ c2, world c2 = world c1 ∨
                          (∃ x, world c2 = console_error x (world c1)) →
              foldl (Reentrant.notify call e r) (Some c2) ws = Some c' →
              grows (world c) (world c') ∧
              ∃ rest, calls (world c') = calls (world c) ++ rest ∧
                      deliveries e r (cb :: ws) `sublist_of` rest).
    { intros c2 Hc2 Hfold. destruct (IH _ _ Hfold) as (Hg2 & rest & Hrest & Hsub).
      assert (Hcalls : calls (world c2) = calls (world c1))
        by (destruct Hc2 as [->|[x ->]]; done).
      assert (Hg12 : grows (world c1) (world c2)).
      { destruct Hc2 as [->|[x ->]]; [apply grows_refl|].
        split; [done|]. intros ref fd Hfd. by exists fd. }
      split; [eapply grows_trans; [exact Hg1|]; by eapply grows_trans|].
      exists (deliveries e r [cb] ++ m1 ++ rest). split.
      - rewrite Hrest, Hcalls, Hm1. by rewrite <- !app_assoc.
      - change (deliveries e r (cb :: ws))
          with (deliveries e r [cb] ++ deliveries e r ws).
        apply sublist_app; [done|]. by apply sublist_inserts_l. }
    destruct res as [u|x]; apply Hnext; [by left|right; by exists x].
Qed.

Lemma completeFlight_grows k e r c c' :
  Reentrant.completeFlight call k e r c = Some c' → grows (world c) (world c').
Proof.
  unfold Reentrant.completeFlight.
  destruct (flights (world c) !! k) as [ref|]; [|intros [= <-]; apply grows_refl].
  destruct (heap (world c) !! ref) as [fd|] eqn:Hfd;
    [|intros [= <-]; apply grows_refl].
  cbv zeta. destruct (foldl _ _ _) as [c3|] eqn:Hfold; [|done]. intros [= <-].
  destruct (fanout_grows _ _ _ _ _ Hfold) as [Hg _]. simpl in Hg.
  set (s1 := match timeoutHandle fd with
             | Some t => clearTimeout t (world c)
             | None => world c
             end) in *.
  assert (H1 : grows (world c) s1).
  { unfold s1. destruct (timeoutHandle fd); [|apply grows_refl].
    split; [done|]. intros ref0 fd0 H0. by exists fd0. }
  assert (H2 : grows s1 (set_heap (<[ref := settle e r fd]> (heap s1)) s1)).
  { apply grows_insert with (fd := fd); [|done].
    unfold s1. by destruct (timeoutHandle fd). }
  assert (H3 : grows (world c3) (set_flights (delete k (flights (world c3))) (world c3))).
  { split; [done|]. intros ref0 fd0 H0. by exists fd0. }
  eapply grows_trans; [exact H1|]. eapply grows_trans; [exact H2|].
  eapply grows_trans; [exact Hg|exact H3].
Qed.

Lemma perform_grows c op c' :
  Reentrant.perform call c op = Some c' → grows (world c) (world c').
Proof.
  destruct op as [method url now|i cb|i r|i e|t]; simpl.
  - pose proof (grows_getOrCreateFlight method url now (world c)) as H.
    destruct (getOrCreateFlight method url now (world c)). by intros [= <-].
  - destruct (handles c !! i) as [h|]; [|intros [= <-]; apply grows_refl].
    unfold Reentrant.addWaiter.
    destruct h as [ref k|ref];
      (destruct (heap (world c) !! ref) as [fd|] eqn:Hfd;
       [|intros [= <-]; apply grows_refl]).
    + destruct (completed fd).
      * destruct (truthy (error fd)).
        -- destruct (call cb (error fd) VNull c) as [[res c1]|] eqn:Hc; [|done].
           intros [= <-]. exact (proj1 (call_announces _ _ _ _ _ _ Hc)).
        -- destruct (call cb VNull (result fd) c) as [[res c1]|] eqn:Hc; [|done].
           intros [= <-]. exact (proj1 (call_announces _ _ _ _ _ _ Hc)).
      * intros [= <-]. simpl. by apply grows_insert with (fd := fd).
    + destruct (truthy (error fd)).
      * destruct (call cb (error fd) VNull c) as [[res c1]|] eqn:Hc; [|done].
        intros [= <-]. exact (proj1 (call_announces _ _ _ _ _ _ Hc)).
      * intros [= <-]. simpl. by apply grows_insert with (fd := fd).
  - destruct (handles c !! i) as [[ref k|ref]|]; simpl;
      [|intros [= <-]; apply grows_refl..].
    destruct (Reentrant.completeFlight call k VNull r c) as [c1|] eqn:Hc; [|done].
    intros [= <-]. by eapply completeFlight_grows.
  - destruct (handles c !! i) as [[ref k|ref]|]; simpl;
      [|intros [= <-]; apply grows_refl..].
    destruct (Reentrant.completeFlight call k e VNull c) as [c1|] eqn:Hc; [|done].
    intros [= <-]. by eapply completeFlight_grows.
  - intros [= <-]. apply grows_refl.
Qed.

Lemma exec_grows p : ∀ c c',
  Reentrant.exec call p c = Some c' → grows (world c) (world c').
Proof.
  induction p as [|op next IH]; intros c c'; simpl;
    [intros [= <-]; apply grows_refl|].
  destruct (Reentrant.perform call c op) as [c1|] eqn:Hop; [|done].
  intros Hex. eapply grows_trans; [by eapply perform_grows|by eapply IH].
Qed.

End Calls.

Lemma invoke_announces bodies depth : announces (Reentrant.invoke bodies depth).
Proof.
  induction depth as [|d IH]; intros cb e r c res c'; [done|].
  rewrite invoke_unfold.
  destruct (Reentrant.exec _ _ _) as [c1|] eqn:Hex; [|done]. intros [= _ <-].
  destruct (exec_grows _ IH _ _ _ Hex) as [[m Hm] Hh]. simpl in Hm, Hh.
  split; [split|].
  - exists ([mkDelivery (cb_id cb) e r] ++ m). by rewrite Hm, <- app_assoc.
  - exact Hh.
  - by exists m.
Qed.

(** [completeFlight] on a key that owns a record, with waiters that call
    the tracker. *)
Lemma completeFlight_reaches bodies depth k e r c c' ref fd :
  flights (world c) !! k = Some ref →
  heap (world c) !! ref = Some fd →
  Reentrant.completeFlight (Reentrant.invoke bodies depth) k e r c = Some c' →
  flights (world c') !! k = None ∧
  (∃ fd', heap (world c') !! ref = Some fd' ∧ completed fd' = true) ∧
  ∃ rest, calls (world c') = calls (world c) ++ rest ∧
          deliveries e r (waiters fd) `sublist_of` rest.
Proof.
  intros Hk Hfd. unfold Reentrant.completeFlight. rewrite Hk, Hfd. cbv zeta.
  destruct (foldl _ _ _) as [c3|] eqn:Hfold; [|done]. intros [= <-].
  destruct (fanout_grows _ (invoke_announces bodies depth) _ _ _ _ _ Hfold)
    as ([_ Hheap] & rest & Hrest & Hsub).
  simpl in Hheap, Hrest.
  split; [apply lookup_delete_eq|]. split.
  - destruct (Hheap ref (settle e r fd)) as (fd' & Hfd' & Hc).
    + apply list_lookup_insert_eq.
      destruct (timeoutHandle fd); simpl; by apply lookup_lt_Some in Hfd.
    + exists fd'. split; [exact Hfd'|]. by apply Hc.
  - exists rest. split; [|exact Hsub].
    simpl. rewrite Hrest. by destruct (timeoutHandle fd).
Qed.

End Growth.

(** ** Waiters that only join or start flights

    With such waiters no call nests deeper than one notification, so every
    operation returns at depth 1. *)

Section Restarting.

Variable bodies : Reentrant.Bodies.
Hypothesis bodies_restarting : restarting bodies.

Lemma exec_joins call p : joins p → ∀ c, is_Some (Reentrant.exec call p c).
Proof.
  induction 1 as [|method url now next _ IH]; intros c; simpl; [by eexists|].
  destruct (getOrCreateFlight method url now (world c)) as [h s]. apply IH.
Qed.

Lemma invoke_restarting d cb e r c :
  is_Some (Reentrant.invoke bodies (S d) cb e r c).
Proof.
  simpl.
  match goal with |- context [Reentrant.exec ?call ?p ?c1] =>
    destruct (exec_joins call p (bodies_restarting _ _ _ _) c1) as [c' ->] end.
  by eexists.
Qed.

Lemma fanout_restarting d e r ws : ∀ c,
  is_Some (foldl (Reentrant.notify (Reentrant.invoke bodies (S d)) e r) (Some c) ws).
Proof.
  induction ws as [|cb ws IH]; intros c; [by eexists|].
  cbn [foldl]. unfold Reentrant.notify at 2.
  destruct (truthy e).
  - destruct (invoke_restarting d cb e VNull c) as [[[u|x] c'] ->]; apply IH.
  - destruct (invoke_restarting d cb VNull r c) as [[[u|x] c'] ->]; apply IH.
Qed.

Lemma completeFlight_restarting d k e r c :
  is_Some (Reentrant.completeFlight (Reentrant.invoke bodies (S d)) k e r c).
Proof.
  unfold Reentrant.completeFlight.
  destruct (flights (world c) !! k) as [ref|]; [|by eexists].
  destruct (heap (world c) !! ref) as [fd|]; [|by eexists].
  cbv zeta.
  match goal with |- context [foldl ?f (Some ?c0) ?ws] =>
    destruct (fanout_restarting d e r ws c0) as [c3 ->] end.
  by eexists.
Qed.

Lemma step_restarting d c op :
  is_Some (Reentrant.step (Reentrant.invoke bodies (S d)) c op).
Proof.
  destruct op as [method url now|i cb|i r|i e|t]; unfold Reentrant.step.
  - destruct (getOrCreateFlight method url now (world c)). by eexists.
  - destruct (handles c !! i) as [h|]; [|by eexists].
    unfold Reentrant.addWaiter.
    destruct h as [ref k|ref];
      (destruct (heap (world c) !! ref) as [fd|]; [|by eexists]).
    + destruct (completed fd); [|by eexists].
      destruct (truthy (error fd)).
      * by destruct (invoke_restarting d cb (error fd) VNull c) as [x ->]; eexists.
      * by destruct (invoke_restarting d cb VNull (result fd) c) as [x ->]; eexists.
    + destruct (truthy (error fd)); [|by eexists].
      by destruct (invoke_restarting d cb (error fd) VNull c) as [x ->]; eexists.
  - destruct (handles c !! i) as [[ref k|ref]|]; [|by eexists..].
    unfold Reentrant.setResult.
    by destruct (completeFlight_restarting d k VNull r c) as [x ->]; eexists.
  - destruct (handles c !! i) as [[ref k|ref]|]; [|by eexists..].
    unfold Reentrant.setError.
    by destruct (completeFlight_restarting d k e VNull c) as [x ->]; eexists.
  - unfold Reentrant.fireTimer.
    destruct (timers (world c) !! t) as [[k d0]|]; [|by eexists].
    unfold Reentrant.abortFlight.
    match goal with |- context [flights (world ?c1) !! k] =>
      destruct (flights (world c1) !! k) as [ref|]; [|by eexists];
      destruct (heap (world c1) !! ref) as [fd|]; [|by eexists];
      destruct (completed fd); cbn [negb]; [by eexists|];
      apply completeFlight_restarting end.
Qed.

End Restarting.

(** The states that [run] reaches are those of waiters that do not call the
    tracker, so they are sound. *)
Lemma run_sound_quiet timeoutMs ops : sound timeoutMs ∅ (world (run timeoutMs ops)).
Proof.
  apply (run_sound (λ _ _ _ _, Reentrant.Done) 1 timeoutMs ops).
  by apply run_quiet.
Qed.

(** ** join-or-start: a flight started by a waiter *)

Section JoinOrStart.

(** C1.  The single-flight guarantee of [getOrCreateFlight] fails for a
    flight started by a waiter.  Waiter 1 of the first flight of "GET:/data"
    calls [getOrCreateFlight] for the same url when it is notified: the map
    still holds the completed record, so the call answers Originate and
    registers record 1; the [this.flights.delete(key)] that ends
    [completeFlight] then removes record 1 from the map although it is
    pending.  The next [getOrCreateFlight] for the url answers Originate
    again (record 2) while record 1 is still pending: two originators for
    one key, and no Wait. *)
Theorem waiter_restart_originates_twice :
  ∃ c c',
    (∀ d, Reentrant.run retry_bodies (S d) 30000 retry_script = Some c) ∧
    decisions c = [true; true] ∧
    handles c !! 1%nat = Some (Originator 1 "GET:/data") ∧
    heap (world c) !! 1%nat =
      Some (mkFlightData "GET:/data" 5 [] VNull VNull false (Some 1%nat)) ∧
    flights (world c) !! "GET:/data" = None ∧
    (∀ d, Reentrant.step (Reentrant.invoke retry_bodies (S d)) c
            (JoinOrStart "GET" "/data" 9) = Some c') ∧
    decisions c' = [true; true; true] ∧
    handles c' !! 2%nat = Some (Originator 2 "GET:/data") ∧
    heap (world c') !! 1%nat =
      Some (mkFlightData "GET:/data" 5 [] VNull VNull false (Some 1%nat)) ∧
    heap (world c') !! 2%nat =
      Some (mkFlightData "GET:/data" 9 [] VNull VNull false (Some 2%nat)).
Proof.
  eexists. eexists.
  split; [apply run_at_depth; vm_compute; reflexivity|].
  split; [reflexivity|]. split; [reflexivity|]. split; [reflexivity|].
  split; [reflexivity|].
  split; [apply step_at_depth; vm_compute; reflexivity|].
  split; [reflexivity|]. split; [reflexivity|]. split; reflexivity.
Qed.

End JoinOrStart.

(** ** Completion: fan-out, removal, containment of waiter errors *)

Section Completion.

Lemma fanout_console e r ws : ∀ s,
  console (foldl (notify e r) s ws) = console s ++ caught e r ws.
Proof.
  induction ws as [|cb ws IH]; intros s; simpl.
  - by rewrite app_nil_r.
  - rewrite IH. unfold notify, invoke, caught. simpl.
    destruct (truthy e); simpl; destruct (cb_body cb _ _); simpl;
      by rewrite <- ?app_assoc.
Qed.

Lemma completeFlight_console k e r s ref fd :
  flights s !! k = Some ref →
  heap s !! ref = Some fd →
  console (completeFlight k e r s) = console s ++ caught e r (waiters fd).
Proof.
  intros Hk Hfd. unfold completeFlight. rewrite Hk, Hfd. simpl.
  rewrite fanout_console. by destruct (timeoutHandle fd).
Qed.

Lemma deliveries_success r ws :
  deliveries VNull r ws = (λ cb, mkDelivery (cb_id cb) VNull r) <$> ws.
Proof. done. Qed.

(** C2.  [setResult] of an originator does not always notify the waiters
    of its flight.  Record 1 is the flight that waiter 1 started while it
    was notified; [completeFlight] removed its key from the map although it
    is pending.  Waiter 8 is registered on record 1 through its originator's
    handle and is queued.  When that originator calls [setResult("second")],
    [completeFlight] finds no record under the key and returns: waiter 8 is
    not called and record 1 stays pending; the same holds when the timer of
    record 1 goes off afterwards. *)
Theorem stranded_flight_never_notifies :
  ∃ c c' c'',
    (∀ d, Reentrant.run retry_bodies (S d) 30000
            (retry_script ++ [AddWaiter 1 (sink 8)]) = Some c) ∧
    handles c !! 1%nat = Some (Originator 1 "GET:/data") ∧
    heap (world c) !! 1%nat =
      Some (mkFlightData "GET:/data" 5 [sink 8] VNull VNull false (Some 1%nat)) ∧
    calls (world c) = [mkDelivery 1 VNull (VStr "first")] ∧
    (∀ d, Reentrant.step (Reentrant.invoke retry_bodies (S d)) c
            (SetResult 1 (VStr "second")) = Some c') ∧
    calls (world c') = [mkDelivery 1 VNull (VStr "first")] ∧
    heap (world c') !! 1%nat =
      Some (mkFlightData "GET:/data" 5 [sink 8] VNull VNull false (Some 1%nat)) ∧
    timers (world c') !! 1%nat = Some ("GET:/data", 30000) ∧
    (∀ d, Reentrant.step (Reentrant.invoke retry_bodies (S d)) c' (TimerFires 1) =
            Some c'') ∧
    calls (world c'') = [mkDelivery 1 VNull (VStr "first")] ∧
    heap (world c'') !! 1%nat =
      Some (mkFlightData "GET:/data" 5 [sink 8] VNull VNull false (Some 1%nat)) ∧
    timers (world c'') = ∅.
Proof.
  eexists. eexists. eexists.
  split; [apply run_at_depth; vm_compute; reflexivity|].
  split; [reflexivity|]. split; [reflexivity|]. split; [reflexivity|].
  split; [apply step_at_depth; vm_compute; reflexivity|].
  split; [reflexivity|]. split; [reflexivity|]. split; [reflexivity|].
  split; [apply step_at_depth; vm_compute; reflexivity|].
  split; [reflexivity|]. split; reflexivity.
Qed.


(** C9.  A waiter that throws during the fan-out of [completeFlight] is
    contained by the [try]/[catch]: whatever each callback does, every
    waiter of the record is still called, in order, with the same outcome;
    the exceptions go to [console.error]; and the key is removed from the
    map.  In particular the waiters queued behind a throwing one are
    called. *)
Theorem completeFlight_contains_waiter_errors k e r s ref fd pre cb post exn :
  flights s !! k = Some ref →
  heap s !! ref = Some fd →
  waiters fd = pre ++ cb :: post →
  (if truthy e then cb_body cb e VNull else cb_body cb VNull r) = Thrown exn →
  calls (completeFlight k e r s) =
    calls s ++ deliveries e r pre ++ deliveries e r [cb] ++ deliveries e r post ∧
  console (completeFlight k e r s) =
    console s ++ caught e r pre ++ exn :: caught e r post ∧
  flights (completeFlight k e r s) !! k = None.
Proof.
  intros Hk Hfd Hw Hthrow.
  destruct (completeFlight_found k e r s ref fd Hk Hfd) as (Hf & _ & Hcalls & _).
  split; [|split].
  - rewrite Hcalls, Hw. unfold deliveries. by rewrite fmap_app.
  - rewrite (completeFlight_console k e r s ref fd) by done. rewrite Hw.
    unfold caught. rewrite omap_app. simpl. by rewrite Hthrow.
  - rewrite Hf. apply lookup_delete_eq.
Qed.

End Completion.

(** ** Late calls on a handle *)

Section LateCalls.



(** C3.  [setResult] on a handle whose flight already completed is not
    always a no-op.  The handle finds its record through the key, so when a
    newer flight of the same key is pending, the late call completes that
    one: here the first flight (record 0) timed out, the second (record 1)
    is pending with waiter 7, and [setResult("late")] through the first
    handle calls waiter 7 and removes the key from the map.  The same
    happens when the first flight was completed by [setResult] and
    [setResult] is called on its handle a second time. *)
Theorem late_setResult_completes_successor :
  handles (run 2000 late_originator_prefix) !! 0%nat =
    Some (Originator 0 "GET:/slow") ∧
  (completed <$> heap (world (run 2000 late_originator_prefix)) !! 0%nat) = Some true ∧
  flights (world (run 2000 late_originator_prefix)) !! "GET:/slow" = Some 1%nat ∧
  calls (world (run 2000 late_originator_prefix)) = [] ∧
  calls (world (step (run 2000 late_originator_prefix) (SetResult 0 (VStr "late")))) =
    [mkDelivery 7 VNull (VStr "late")] ∧
  flights (world (step (run 2000 late_originator_prefix) (SetResult 0 (VStr "late"))))
    !! "GET:/slow" = None ∧
  (result <$> heap (world (step (run 2000 late_originator_prefix)
                                (SetResult 0 (VStr "late")))) !! 1%nat) =
    Some (VStr "late") ∧
  (completed <$> heap (world (run 30000 double_report_prefix)) !! 0%nat) = Some true ∧
  flights (world (run 30000 double_report_prefix)) !! "GET:/data" = Some 1%nat ∧
  calls (world (run 30000 double_report_prefix)) = [] ∧
  calls (world (step (run 30000 double_report_prefix) (SetResult 0 (VStr "second")))) =
    [mkDelivery 7 VNull (VStr "second")] ∧
  flights (world (step (run 30000 double_report_prefix) (SetResult 0 (VStr "second"))))
    !! "GET:/data" = None.
Proof. vm_compute. repeat split. Qed.

(** What [addWaiter] of the originator's handle does on a completed record:
    the callback is called at once, with the stored error if it is truthy
    and with the stored result otherwise, and nothing is queued. *)
Lemma originator_addWaiter_completed ref k cb fd s :
  heap s !! ref = Some fd → completed fd = true →
  heap (addWaiter (Originator ref k) cb s).2 = heap s ∧
  calls (addWaiter (Originator ref k) cb s).2 =
    calls s ++ [if truthy (error fd) then mkDelivery (cb_id cb) (error fd) VNull
                else mkDelivery (cb_id cb) VNull (result fd)].
Proof.
  intros Hfd Hc. unfold addWaiter. rewrite Hfd, Hc.
  by destruct (truthy (error fd)).
Qed.

(** What [addWaiter] of a joiner's handle does on a completed record. *)
Lemma joiner_addWaiter_completed ref cb fd s :
  heap s !! ref = Some fd → completed fd = true →
  if truthy (error fd) then
    heap (addWaiter (Joiner ref) cb s).2 = heap s ∧
    calls (addWaiter (Joiner ref) cb s).2 =
      calls s ++ [mkDelivery (cb_id cb) (error fd) VNull]
  else
    heap (addWaiter (Joiner ref) cb s).2 = <[ref := push_waiter cb fd]> (heap s) ∧
    calls (addWaiter (Joiner ref) cb s).2 = calls s.
Proof.
  intros Hfd Hc. unfold addWaiter. rewrite Hfd.
  by destruct (truthy (error fd)).
Qed.

(** C7.  The [addWaiter] of a joiner's handle tests [existing.error] only.
    After the flight succeeded (record 0 completed with result "payload" and
    no error) the callback is appended to [waiters] of the completed record
    and is not called; the originator's [addWaiter] on the same record calls
    it at once with the stored result. *)
Theorem joiner_addWaiter_after_success_queues :
  handles (run 30000 late_joiner_prefix) = [Originator 0 "GET:/data"; Joiner 0] ∧
  (completed <$> heap (world (run 30000 late_joiner_prefix)) !! 0%nat) = Some true ∧
  (waiters <$> heap (world (run 30000 late_joiner_prefix)) !! 0%nat) = Some [] ∧
  calls (world (step (run 30000 late_joiner_prefix) (AddWaiter 1 (sink 9)))) = [] ∧
  (waiters <$> heap (world (step (run 30000 late_joiner_prefix) (AddWaiter 1 (sink 9))))
     !! 0%nat) = Some [sink 9] ∧
  calls (world (step (run 30000 late_joiner_prefix) (AddWaiter 0 (sink 9)))) =
    [mkDelivery 9 VNull (VStr "payload")] ∧
  (waiters <$> heap (world (step (run 30000 late_joiner_prefix) (AddWaiter 0 (sink 9))))
     !! 0%nat) = Some [].
Proof. vm_compute. repeat split. Qed.

(** C8.  [setError] with a falsy error value is fanned out as a success.
    [completeFlight(key, error, null)] chooses between [callback(error,
    null)] and [callback(null, result)] by the truthiness of [error]: when
    the originator of the pending flight of [two_waiters] calls
    [setError("")], both waiters are called with [(null, null)], which is
    what a successful flight with result [null] gives them, and not with
    [("", null)]. *)
Theorem setError_empty_string_not_forwarded :
  handles (run 30000 two_waiters) !! 0%nat = Some (Originator 0 "GET:/data") ∧
  heap (world (run 30000 two_waiters)) !! 0%nat = Some two_waiters_flight ∧
  completed two_waiters_flight = false ∧
  calls (setError (Originator 0 "GET:/data") (VStr "")
           (world (run 30000 two_waiters))).2 =
    [mkDelivery 1 VNull VNull; mkDelivery 2 VNull VNull] ∧
  calls (setError (Originator 0 "GET:/data") (VStr "")
           (world (run 30000 two_waiters))).2 ≠
    calls (world (run 30000 two_waiters)) ++
    ((λ cb, mkDelivery (cb_id cb) (VStr "") VNull) <$> waiters two_waiters_flight).
Proof. vm_compute. repeat split. discriminate. Qed.

End LateCalls.

(** ** Between two operations the map holds pending records only *)

Section Leak.



(** C6.  Whatever the waiters call, in every state reached after a sequence
    of operations: [setResult] and [setError] through an originator's
    handle, and the firing of an armed timer, each leave the map without the
    key of the flight; no completed record is in the map; hence once every
    record has completed, [totalInFlight] is 0.  With waiters that do
    nothing, or that at most join or start flights, each operation
    returns. *)
Theorem completion_leaves_no_record bodies depth timeoutMs ops c :
  Reentrant.run bodies depth timeoutMs ops = Some c →
  (∀ d i ref k v c',
     handles c !! i = Some (Originator ref k) →
     Reentrant.step (Reentrant.invoke bodies d) c (SetResult i v) = Some c' →
     flights (world c') !! k = None) ∧
  (∀ d i ref k v c',
     handles c !! i = Some (Originator ref k) →
     Reentrant.step (Reentrant.invoke bodies d) c (SetError i v) = Some c' →
     flights (world c') !! k = None) ∧
  (∀ d t k delay c',
     timers (world c) !! t = Some (k, delay) →
     Reentrant.step (Reentrant.invoke bodies d) c (TimerFires t) = Some c' →
     flights (world c') !! k = None) ∧
  (∀ k ref fd,
     flights (world c) !! k = Some ref → heap (world c) !! ref = Some fd →
     completed fd = false) ∧
  (∀ now,
     (∀ ref fd, heap (world c) !! ref = Some fd → completed fd = true) →
     totalInFlight (getStats now (world c)) = 0%nat) ∧
  (restarting bodies → ∀ d op,
     is_Some (Reentrant.step (Reentrant.invoke bodies (S d)) c op)).
Proof.
  intros Hrun. pose proof (run_sound _ _ _ _ _ Hrun) as Hs.
  assert (Hmap : ∀ k ref fd,
     flights (world c) !! k = Some ref → heap (world c) !! ref = Some fd →
     completed fd = false).
  { intros k ref fd Hk Hfd.
    destruct (sound_filed _ _ _ Hs _ _ Hk) as (fd' & Hfd' & _ & [HA|[Hc _]]);
      [by apply elem_of_empty in HA|]. congruence. }
  assert (Hdel : ∀ d k e r c', e = VNull ∨ r = VNull →
    Reentrant.completeFlight (Reentrant.invoke bodies d) k e r c = Some c' →
    flights (world c') !! k = None).
  { intros d k e r c' Her Hc.
    apply (sound_completeFlight _ (invoke_sound bodies d) timeoutMs ∅ k e r c c');
      [|done..].
    eapply sound_mono; [|exact Hs]. apply union_subseteq_l. }
  split; [|split; [|split; [|split; [|split]]]].
  - intros d i ref k v c' Hi. simpl. rewrite Hi. simpl.
    destruct (Reentrant.completeFlight _ k VNull v c) as [c1|] eqn:Hc; [|done].
    intros [= <-]. apply (Hdel d k VNull v); [by left|done].
  - intros d i ref k v c' Hi. simpl. rewrite Hi. simpl.
    destruct (Reentrant.completeFlight _ k v VNull c) as [c1|] eqn:Hc; [|done].
    intros [= <-]. apply (Hdel d k v VNull); [by right|done].
  - intros d t k delay c' Ht Hfire. simpl in Hfire.
    destruct (sound_fireTimer _ (invoke_sound bodies d) timeoutMs t c c' Hs Hfire)
      as [_ Hgone].
    by apply (Hgone k delay).
  - exact Hmap.
  - intros now Hall. simpl.
    assert (Hempty : flights (world c) = ∅).
    { apply map_empty. intros k.
      destruct (flights (world c) !! k) as [ref|] eqn:Hk; [|done].
      destruct (sound_filed _ _ _ Hs _ _ Hk) as (fd & Hfd & _).
      pose proof (Hmap _ _ _ Hk Hfd). pose proof (Hall _ _ Hfd). congruence. }
    by rewrite Hempty.
  - intros Hq d op. by apply step_restarting.
Qed.

End Leak.

(** ** A ship sends at most one response *)

Section ShipProperties.
Import ShipObject.

Variable JSON_stringify : value → completion value.
Variable String_ : value → completion value.
Variable Buffer_byteLength : value → completion value.
Variable res_rejects : list ResCall → ResCall → option value.

Local Abbreviation exec := (exec JSON_stringify String_ Buffer_byteLength res_rejects).
Local Abbreviation exec_all :=
  (exec_all JSON_stringify String_ Buffer_byteLength res_rejects).

Local Ltac unfold_methods :=
  unfold ShipObject.exec, status, header, deliver, json, text, html, error, send,
    already_sent, this_statusCode, console_error, set_statusCode,
    set_responseData, set_contentType, set_headersSent, res_call, modify, lift,
    bind, ret.

Local Ltac case_steps :=
  repeat (simpl;
          match goal with
          | |- context [match res_rejects ?l ?c with _ => _ end] =>
              destruct (res_rejects l c) eqn:?
          | |- context [match JSON_stringify ?v with _ => _ end] =>
              destruct (JSON_stringify v) eqn:?
          | |- context [match String_ ?v with _ => _ end] =>
              destruct (String_ v) eqn:?
          | |- context [match Buffer_byteLength ?v with _ => _ end] =>
              destruct (Buffer_byteLength v) eqn:?
          end); simpl.

(** Once [headersSent] is set, a method call only logs to the console (the
    send methods) or does nothing ([status], [header]). *)
Lemma exec_after_sent c sh :
  headersSent sh = true →
  threw (exec c sh).1 = false ∧
  res (exec c sh).2 = res sh ∧
  statusCode (exec c sh).2 = statusCode sh ∧
  _responseData (exec c sh).2 = _responseData sh ∧
  _contentType (exec c sh).2 = _contentType sh ∧
  headersSent (exec c sh).2 = true.
Proof.
  intros Hsent. destruct c; unfold_methods; rewrite Hsent; simpl; repeat split; done.
Qed.

Lemma exec_send_sets_headersSent c sh :
  sends c = true → threw (exec c sh).1 = false → headersSent (exec c sh).2 = true.
Proof.
  intros Hsend. destruct (headersSent sh) eqn:Hsent.
  { intros _. by apply exec_after_sent. }
  destruct c as [code|name v|data ct|data|data|data|message code ts];
    try discriminate Hsend; unfold_methods; rewrite Hsent.
  - destruct data; case_steps; done.
  - case_steps; done.
  - case_steps; done.
  - case_steps; done.
  - case_steps; done.
Qed.

Lemma exec_all_after_sent cs : ∀ sh,
  headersSent sh = true →
  res (exec_all cs sh) = res sh ∧
  statusCode (exec_all cs sh) = statusCode sh ∧
  headersSent (exec_all cs sh) = true.
Proof.
  induction cs as [|c cs IH]; intros sh Hsent; simpl; [done|].
  destruct (exec_after_sent c sh Hsent) as (_ & Hres & Hcode & _ & _ & Hsent').
  destruct (IH _ Hsent') as (Hres' & Hcode' & Hsent'').
  rewrite Hres', Hcode', Hres, Hcode. done.
Qed.

(** While [headersSent] is unset no [res.end] has been accepted; a call sets
    it together with the one [res.end]. *)
Lemma exec_ended c sh :
  headersSent sh = false →
  (headersSent (exec c sh).2 = false ∧ ended (res (exec c sh).2) = ended (res sh)) ∨
  (headersSent (exec c sh).2 = true ∧ ended (res (exec c sh).2) = S (ended (res sh))).
Proof.
  intros Hsent.
  assert (Hw : ∀ l a b, ended (l ++ [WriteHead a b]) = ended l).
  { intros l a b. unfold ended. rewrite filter_app, length_app. simpl. lia. }
  assert (Hh : ∀ l a b, ended (l ++ [SetHeader a b]) = ended l).
  { intros l a b. unfold ended. rewrite filter_app, length_app. simpl. lia. }
  assert (He : ∀ l a, ended (l ++ [End a]) = S (ended l)).
  { intros l a. unfold ended. rewrite filter_app, length_app. simpl. lia. }
  destruct c as [code|name v|data ct|data|data|data|message code ts];
    unfold_methods; rewrite Hsent.
  - left. done.
  - case_steps; left; rewrite ?Hh; done.
  - destruct data; case_steps; rewrite ?He, ?Hw; auto.
  - case_steps; rewrite ?He, ?Hw; auto.
  - case_steps; rewrite ?He, ?Hw; auto.
  - case_steps; rewrite ?He, ?Hw; auto.
  - case_steps; rewrite ?He, ?Hw; auto.
Qed.

Lemma exec_all_ended cs : ∀ sh,
  ended (res (exec_all cs sh)) =
    (ended (res sh) +
     (if headersSent sh then 0
      else if headersSent (exec_all cs sh) then 1 else 0))%nat.
Proof.
  induction cs as [|c cs IH]; intros sh.
  - simpl. destruct (headersSent sh); lia.
  - destruct (headersSent sh) eqn:Hsent.
    + destruct (exec_all_after_sent (c :: cs) sh Hsent) as (Hres & _).
      rewrite Hres. lia.
    + change (exec_all (c :: cs) sh) with (exec_all cs (exec c sh).2).
      rewrite IH.
      destruct (exec_ended c sh Hsent) as [[Hs He]|[Hs He]]; rewrite Hs, He.
      * done.
      * destruct (exec_all_after_sent cs _ Hs) as (_ & _ & ->). lia.
Qed.

(** C10.  A successful [deliver], [json], [text], [html] or [error] leaves
    [headersSent] set; from then on no sequence of method calls ([status] and
    [header] included) throws, writes to [res] or changes [statusCode]; and
    a ship created by [new Ship(res)] gets at most one [res.end] accepted,
    whatever is called on it. *)
Theorem ship_sends_at_most_once :
  (∀ c sh, sends c = true → threw (exec c sh).1 = false →
     headersSent (exec c sh).2 = true) ∧
  (∀ sh c, headersSent sh = true →
     threw (exec c sh).1 = false ∧
     res (exec c sh).2 = res sh ∧
     statusCode (exec c sh).2 = statusCode sh ∧
     headersSent (exec c sh).2 = true) ∧
  (∀ sh cs, headersSent sh = true →
     res (exec_all cs sh) = res sh ∧
     statusCode (exec_all cs sh) = statusCode sh ∧
     headersSent (exec_all cs sh) = true) ∧
  (∀ log cs,
     (ended (res (exec_all cs (constructor log))) ≤ S (ended log))%nat).
Proof.
  split; [|split; [|split]].
  - apply exec_send_sets_headersSent.
  - intros sh c Hsent.
    destruct (exec_after_sent c sh Hsent) as (H1 & H2 & H3 & _ & _ & H4). done.
  - intros sh cs. apply exec_all_after_sent.
  - intros log cs. rewrite exec_all_ended. simpl.
    destruct (headersSent _); lia.
Qed.

End ShipProperties.

(** ** The theorems at concrete inputs *)

Section Instances.



Lemma completion_leaves_no_record_witness :
  ∃ c c',
    Reentrant.run retry_bodies 1 30000 (retry_script ++ [JoinOrStart "GET" "/data" 9]) =
      Some c ∧
    handles c !! 2%nat = Some (Originator 2 "GET:/data") ∧
    Reentrant.step (Reentrant.invoke retry_bodies 1) c (SetResult 2 (VStr "third")) =
      Some c' ∧
    flights (world c') !! "GET:/data" = None.
Proof.
  destruct (Reentrant.run retry_bodies 1 30000
              (retry_script ++ [JoinOrStart "GET" "/data" 9])) as [c|] eqn:Hrun;
    [|vm_compute in Hrun; discriminate Hrun].
  assert (Hc : Some c = Reentrant.run retry_bodies 1 30000
                          (retry_script ++ [JoinOrStart "GET" "/data" 9]))
    by (symmetry; exact Hrun).
  assert (H1 : handles c !! 2%nat = Some (Originator 2 "GET:/data")).
  { vm_compute in Hc. injection Hc as ->. reflexivity. }
  destruct (Reentrant.step (Reentrant.invoke retry_bodies 1) c
              (SetResult 2 (VStr "third"))) as [c'|] eqn:Hstep.
  2:{ vm_compute in Hc. injection Hc as ->. vm_compute in Hstep. discriminate Hstep. }
  exists c, c'. split; [reflexivity|]. split; [assumption|]. split; [assumption|].
  exact (proj1 (completion_leaves_no_record retry_bodies 1 30000
                  (retry_script ++ [JoinOrStart "GET" "/data" 9]) c Hrun)
           1%nat 2%nat 2%nat "GET:/data" (VStr "third") c' H1 Hstep).
Defined.

Lemma completeFlight_contains_waiter_errors_witness :
  flights (world (run 30000 throwing_waiter_script)) !! "GET:/data" = Some 0%nat ∧
  heap (world (run 30000 throwing_waiter_script)) !! 0%nat =
    Some throwing_waiter_flight ∧
  waiters throwing_waiter_flight = [sink 1] ++ thrower 2 :: [sink 3] ∧
  calls (completeFlight "GET:/data" VNull (VStr "payload")
           (world (run 30000 throwing_waiter_script))) =
    calls (world (run 30000 throwing_waiter_script)) ++
    deliveries VNull (VStr "payload") [sink 1] ++
    deliveries VNull (VStr "payload") [thrower 2] ++
    deliveries VNull (VStr "payload") [sink 3] ∧
  console (completeFlight "GET:/data" VNull (VStr "payload")
             (world (run 30000 throwing_waiter_script))) =
    console (world (run 30000 throwing_waiter_script)) ++
    caught VNull (VStr "payload") [sink 1] ++
    VError "waiter failed" :: caught VNull (VStr "payload") [sink 3] ∧
  flights (completeFlight "GET:/data" VNull (VStr "payload")
             (world (run 30000 throwing_waiter_script))) !! "GET:/data" = None.
Proof.
  assert (H1 : flights (world (run 30000 throwing_waiter_script)) !! "GET:/data" =
               Some 0%nat) by (vm_compute; reflexivity).
  assert (H2 : heap (world (run 30000 throwing_waiter_script)) !! 0%nat =
               Some throwing_waiter_flight) by (vm_compute; reflexivity).
  assert (H3 : waiters throwing_waiter_flight = [sink 1] ++ thrower 2 :: [sink 3])
    by reflexivity.
  split; [assumption|]. split; [assumption|]. split; [assumption|].
  exact (completeFlight_contains_waiter_errors "GET:/data" VNull (VStr "payload")
           (world (run 30000 throwing_waiter_script)) 0 throwing_waiter_flight
           [sink 1] (thrower 2) [sink 3] (VError "waiter failed")
           H1 H2 H3 eq_refl).
Defined.

End Instances.

Section ShipInstances.
Import ShipObject.

Lemma ship_sends_at_most_once_witness :
  sends (CallJson (VNum 1)) = true ∧
  threw (exec demo_stringify demo_String demo_byteLength demo_rejects
           (CallJson (VNum 1)) (constructor [])).1 = false ∧
  headersSent (exec demo_stringify demo_String demo_byteLength demo_rejects
                 (CallJson (VNum 1)) (constructor [])).2 = true.
Proof.
  assert (H1 : sends (CallJson (VNum 1)) = true) by reflexivity.
  assert (H2 : threw (exec demo_stringify demo_String demo_byteLength demo_rejects
                        (CallJson (VNum 1)) (constructor [])).1 = false)
    by reflexivity.
  split; [assumption|]. split; [assumption|].
  exact (proj1 (ship_sends_at_most_once demo_stringify demo_String demo_byteLength
                  demo_rejects) (CallJson (VNum 1)) (constructor []) H1 H2).
Defined.

End ShipInstances.

(** ** Further properties of the tracker *)

Section TrackerKeys.

Lemma createFlightKey_cons c method url :
  createFlightKey (String c method) url = String c (createFlightKey method url).
Proof. reflexivity. Qed.

Lemma createFlightKey_nil url : createFlightKey "" url = String ":"%char url.
Proof. reflexivity. Qed.

(** X1.  For methods without a colon (every HTTP method), the flight key
    determines the request: two requests get the same key only if both the
    method and the url are the same. *)
Theorem createFlightKey_injective method1 url1 method2 url2 :
  contains_colon method1 = false →
  contains_colon method2 = false →
  createFlightKey method1 url1 = createFlightKey method2 url2 →
  method1 = method2 ∧ url1 = url2.
Proof.
  revert method2.
  induction method1 as [|c m1 IH]; intros [|c2 m2] H1 H2 Heq;
    rewrite ?createFlightKey_cons, ?createFlightKey_nil in Heq.
  - by injection Heq as ->.
  - injection Heq as <- _. simpl in H2. discriminate H2.
  - injection Heq as -> _. simpl in H1. discriminate H1.
  - injection Heq as -> Heq. simpl in H1, H2.
    destruct (Ascii.eqb c2 ":"%char); [done|].
    destruct (IH m2 H1 H2 Heq) as [-> ->]. done.
Qed.

Lemma createFlightKey_injective_witness :
  contains_colon "GET" = false ∧ contains_colon "GET" = false ∧
  createFlightKey "GET" "/data" = createFlightKey "GET" "/data" ∧
  "GET" = "GET" ∧ "/data" = "/data".
Proof.
  assert (H1 : contains_colon "GET" = false) by reflexivity.
  assert (H3 : createFlightKey "GET" "/data" = createFlightKey "GET" "/data")
    by reflexivity.
  split; [assumption|]. split; [assumption|]. split; [assumption|].
  exact (createFlightKey_injective "GET" "/data" "GET" "/data" H1 H1 H3).
Defined.

(** X2.  [isInFlight(method, url)] against the answer of
    [getOrCreateFlight(method, url)].  In any state a call that joins
    ([isNew] false) finds [isInFlight] true, and when [isInFlight] is false
    the call originates.  Between two operations, whatever the waiters call,
    the two agree: [isInFlight] is true exactly when the call joins a
    pending flight.  They differ when the map holds a completed record,
    which is the case while [completeFlight] notifies the waiters: then
    [isInFlight] is true and the call originates. *)
Theorem isInFlight_predicts_join method url now :
  (∀ s, isNew (getOrCreateFlight method url now s).1 = false →
        isInFlight method url s = true) ∧
  (∀ s, isInFlight method url s = false →
        isNew (getOrCreateFlight method url now s).1 = true) ∧
  (∀ bodies depth timeoutMs ops c,
     Reentrant.run bodies depth timeoutMs ops = Some c →
     isInFlight method url (world c) =
       negb (isNew (getOrCreateFlight method url now (world c)).1)) ∧
  (∀ s ref fd,
     flights s !! createFlightKey method url = Some ref →
     heap s !! ref = Some fd → completed fd = true →
     isInFlight method url s = true ∧
     isNew (getOrCreateFlight method url now s).1 = true).
Proof.
  split; [|split; [|split]].
  - intros s. unfold isInFlight, getOrCreateFlight.
    destruct (flights s !! createFlightKey method url) as [ref|]; [done|].
    by unfold registerFlight.
  - intros s. unfold isInFlight, getOrCreateFlight.
    by destruct (flights s !! createFlightKey method url) as [ref|].
  - intros bodies depth timeoutMs ops c Hrun.
    pose proof (run_sound _ _ _ _ _ Hrun) as Hs.
    unfold isInFlight, getOrCreateFlight.
    destruct (flights (world c) !! createFlightKey method url) as [ref|] eqn:Hk;
      [|done].
    destruct (sound_filed _ _ _ Hs _ _ Hk) as (fd & Hfd & _ & [HA|[Hc _]]);
      [by apply elem_of_empty in HA|].
    by rewrite Hfd, Hc.
  - intros s ref fd Hk Hfd Hc. unfold isInFlight, getOrCreateFlight.
    by rewrite Hk, Hfd, Hc.
Qed.

Lemma isInFlight_predicts_join_witness :
  flights retry_fanout !! createFlightKey "GET" "/data" = Some 0%nat ∧
  heap retry_fanout !! 0%nat =
    Some (mkFlightData "GET:/data" 0 [sink 1] (VStr "first") VNull true (Some 0%nat)) ∧
  isInFlight "GET" "/data" retry_fanout = true ∧
  isNew (getOrCreateFlight "GET" "/data" 5 retry_fanout).1 = true.
Proof.
  assert (H1 : flights retry_fanout !! createFlightKey "GET" "/data" = Some 0%nat)
    by reflexivity.
  assert (H2 : heap retry_fanout !! 0%nat =
    Some (mkFlightData "GET:/data" 0 [sink 1] (VStr "first") VNull true (Some 0%nat)))
    by reflexivity.
  split; [assumption|]. split; [assumption|].
  exact (proj2 (proj2 (proj2 (isInFlight_predicts_join "GET" "/data" 5)))
           retry_fanout 0%nat _ H1 H2 eq_refl).
Defined.

(** X3.  Completing a key twice in a row is completing it once, in any
    state: the second [completeFlight] (and so a second [setResult],
    [setError] or [abortFlight] right after the first) finds the key gone
    and changes nothing. *)
Theorem completeFlight_idempotent k e1 r1 e2 r2 s :
  completeFlight k e2 r2 (completeFlight k e1 r1 s) = completeFlight k e1 r1 s ∧
  abortFlight k e2 (completeFlight k e1 r1 s) = completeFlight k e1 r1 s.
Proof.
  destruct (flights s !! k) as [ref|] eqn:Hk.
  - destruct (heap s !! ref) as [fd|] eqn:Hfd.
    + destruct (completeFlight_found k e1 r1 s ref fd Hk Hfd) as (Hf & _).
      assert (Hnone : flights (completeFlight k e1 r1 s) !! k = None)
        by (rewrite Hf; apply lookup_delete_eq).
      split; [by apply completeFlight_absent|].
      unfold abortFlight. by rewrite Hnone.
    + assert (Heq : completeFlight k e1 r1 s = s)
        by (unfold completeFlight; by rewrite Hk, Hfd).
      rewrite Heq. split.
      * unfold completeFlight. by rewrite Hk, Hfd.
      * unfold abortFlight. by rewrite Hk, Hfd.
  - rewrite (completeFlight_absent k e1 r1 s Hk). split.
    + by apply completeFlight_absent.
    + unfold abortFlight. by rewrite Hk.
Qed.

End TrackerKeys.

(** ** Every in-flight record has its timer *)

Section TrackerTimers.

(** X4.  Whatever the waiters call, in every state reached after a
    sequence of operations each record in the map is pending and has its own
    timer armed; the timer carries the record's key and, as its delay
    argument, the [timeoutMs] given to the constructor.  So no in-flight
    record is without a deadline. *)
Theorem timers_match_flights bodies depth timeoutMs ops c :
  Reentrant.run bodies depth timeoutMs ops = Some c →
  ∀ k ref, flights (world c) !! k = Some ref →
    ∃ fd t, heap (world c) !! ref = Some fd ∧ completed fd = false ∧
            timeoutHandle fd = Some t ∧
            timers (world c) !! t = Some (k, timeoutMs).
Proof.
  intros Hrun k ref Hk. pose proof (run_sound _ _ _ _ _ Hrun) as Hs.
  destruct (sound_filed _ _ _ Hs _ _ Hk) as (fd & Hfd & _ & [HA|(Hc & t & Hth & Ht)]);
    [by apply elem_of_empty in HA|].
  by exists fd, t.
Qed.

Lemma timers_match_flights_witness :
  ∃ c,
    Reentrant.run retry_bodies 1 30000 (retry_script ++ [JoinOrStart "GET" "/data" 9]) =
      Some c ∧
    flights (world c) !! "GET:/data" = Some 2%nat ∧
    ∃ fd t, heap (world c) !! 2%nat = Some fd ∧ completed fd = false ∧
            timeoutHandle fd = Some t ∧
            timers (world c) !! t = Some ("GET:/data", 30000).
Proof.
  destruct (Reentrant.run retry_bodies 1 30000
              (retry_script ++ [JoinOrStart "GET" "/data" 9])) as [c|] eqn:Hrun;
    [|vm_compute in Hrun; discriminate Hrun].
  assert (H1 : flights (world c) !! "GET:/data" = Some 2%nat).
  { pose proof Hrun as H. vm_compute in H. injection H as <-. reflexivity. }
  exists c. split; [reflexivity|]. split; [assumption|].
  exact (timers_match_flights retry_bodies 1 30000
           (retry_script ++ [JoinOrStart "GET" "/data" 9]) c Hrun "GET:/data" 2%nat H1).
Defined.

End TrackerTimers.

(** ** Keys do not interfere *)

Section TrackerRecords.

(** X5.  In every reachable state, completing one key, or joining or
    starting a flight for it, leaves every other in-flight key alone: the
    other key stays in the map with the same record (same queue of waiters,
    still pending), its timer stays armed, and the only callbacks called are
    the waiters queued on the completed key. *)
Theorem other_keys_untouched timeoutMs ops k k' ref' fd' :
  k ≠ k' →
  flights (world (run timeoutMs ops)) !! k' = Some ref' →
  heap (world (run timeoutMs ops)) !! ref' = Some fd' →
  (∀ e r,
     flights (completeFlight k e r (world (run timeoutMs ops))) !! k' = Some ref' ∧
     heap (completeFlight k e r (world (run timeoutMs ops))) !! ref' = Some fd' ∧
     (∃ t, timeoutHandle fd' = Some t ∧
           timers (completeFlight k e r (world (run timeoutMs ops))) !! t =
             Some (k', timeoutMs)) ∧
     calls (completeFlight k e r (world (run timeoutMs ops))) =
       calls (world (run timeoutMs ops)) ++
       match flights (world (run timeoutMs ops)) !! k with
       | Some ref => match heap (world (run timeoutMs ops)) !! ref with
                     | Some fd => deliveries e r (waiters fd)
                     | None => []
                     end
       | None => []
       end) ∧
  (∀ method url now,
     createFlightKey method url = k →
     flights (getOrCreateFlight method url now (world (run timeoutMs ops))).2 !! k' =
       Some ref' ∧
     heap (getOrCreateFlight method url now (world (run timeoutMs ops))).2 !! ref' =
       Some fd' ∧
     (∃ t, timeoutHandle fd' = Some t ∧
           timers (getOrCreateFlight method url now (world (run timeoutMs ops))).2 !! t =
             Some (k', timeoutMs)) ∧
     calls (getOrCreateFlight method url now (world (run timeoutMs ops))).2 =
       calls (world (run timeoutMs ops))).
Proof.
  intros Hne Hk' Hfd'.
  pose proof (run_sound_quiet timeoutMs ops) as Hs.
  assert (Hmap : ∀ k ref, flights (world (run timeoutMs ops)) !! k = Some ref →
    ∃ fd t, heap (world (run timeoutMs ops)) !! ref = Some fd ∧ key fd = k ∧
            completed fd = false ∧ timeoutHandle fd = Some t ∧
            timers (world (run timeoutMs ops)) !! t = Some (k, timeoutMs)).
  { intros k0 ref Hk0.
    destruct (sound_filed _ _ _ Hs _ _ Hk0)
      as (fd & Hfd & Hkey & [HA|(Hc & t & Hth & Ht)]);
      [by apply elem_of_empty in HA|].
    by exists fd, t. }
  destruct (Hmap _ _ Hk') as (fd0 & t & Hfd0 & Hkey' & _ & Hth & Ht).
  rewrite Hfd' in Hfd0. injection Hfd0 as <-.
  split.
  - intros e r.
    destruct (flights (world (run timeoutMs ops)) !! k) as [ref|] eqn:Hk.
    2:{ rewrite completeFlight_absent by done. rewrite app_nil_r.
        split; [done|]. split; [done|]. split; [by exists t|done]. }
    destruct (Hmap _ _ Hk) as (fd & t0 & Hfd & Hkey & _ & Hth0 & Ht0).
    destruct (completeFlight_found k e r _ ref fd Hk Hfd)
      as (Hf & Hh & Hcalls & Htm & _).
    rewrite Hf, Hh, Hcalls, Htm, Hth0, Hfd.
    split; [by rewrite lookup_delete_ne|].
    split; [rewrite list_lookup_insert_ne; [done|]; intros <-; congruence|].
    split; [|done]. exists t. split; [done|].
    rewrite lookup_delete_ne; [done|]. intros <-. congruence.
  - intros method url now <-.
    destruct (sound_timer _ _ _ Hs _ _ _ Hfd' Hth) as [Hlt _].
    assert (Hreg :
      flights (registerFlight method url now (world (run timeoutMs ops))).2 !! k' =
        Some ref' ∧
      heap (registerFlight method url now (world (run timeoutMs ops))).2 !! ref' =
        Some fd' ∧
      (∃ t, timeoutHandle fd' = Some t ∧
            timers (registerFlight method url now (world (run timeoutMs ops))).2 !! t =
              Some (k', timeoutMs)) ∧
      calls (registerFlight method url now (world (run timeoutMs ops))).2 =
        calls (world (run timeoutMs ops))).
    { unfold registerFlight. simpl. split; [by rewrite lookup_insert_ne|].
      split; [rewrite lookup_app_l; [done|by apply lookup_lt_Some in Hfd']|].
      split; [|done]. exists t. split; [done|].
      rewrite lookup_insert_ne; [done|]. lia. }
    unfold getOrCreateFlight.
    destruct (flights (world (run timeoutMs ops)) !! createFlightKey method url)
      as [ref|] eqn:Hk; [|exact Hreg].
    destruct (Hmap _ _ Hk) as (fd & t0 & Hfd & _ & Hc & _).
    rewrite Hfd, Hc. simpl. split; [done|]. split; [done|]. split; [by exists t|done].
Qed.

Lemma other_keys_untouched_witness :
  "GET:/slow" ≠ "GET:/data" ∧
  flights (world (run 30000 two_waiters)) !! "GET:/data" = Some 0%nat ∧
  heap (world (run 30000 two_waiters)) !! 0%nat = Some two_waiters_flight ∧
  flights (getOrCreateFlight "GET" "/slow" 9 (world (run 30000 two_waiters))).2
    !! "GET:/data" = Some 0%nat ∧
  heap (getOrCreateFlight "GET" "/slow" 9 (world (run 30000 two_waiters))).2 !! 0%nat =
    Some two_waiters_flight.
Proof.
  assert (H1 : "GET:/slow" ≠ "GET:/data") by discriminate.
  assert (H2 : flights (world (run 30000 two_waiters)) !! "GET:/data" = Some 0%nat)
    by (vm_compute; reflexivity).
  assert (H3 : heap (world (run 30000 two_waiters)) !! 0%nat = Some two_waiters_flight)
    by (vm_compute; reflexivity).
  split; [assumption|]. split; [assumption|]. split; [assumption|].
  pose proof (proj2 (other_keys_untouched 30000 two_waiters "GET:/slow" "GET:/data"
                      0 two_waiters_flight H1 H2 H3) "GET" "/slow" 9 eq_refl) as H.
  exact (conj (proj1 H) (proj1 (proj2 H))).
Defined.

(** X6.  What [getOrCreateFlight] does, in any state.  It calls no waiter.
    When it answers Wait, it found a pending record under the key and the
    state is unchanged.  When it answers Originate, it has appended one
    record to the store (pending, with an empty queue, the given start time
    and no outcome), put it in the map under the key, and called
    [setTimeout] with [this.timeoutMs] as delay argument for a timer that
    captures the key; the handle refers to the new record.  The in-flight
    count grows by one when the key was not in the map, and stays the same
    when the new record takes the place of a completed one. *)
Theorem getOrCreateFlight_effects method url now s :
  calls (getOrCreateFlight method url now s).2 = calls s ∧
  (isNew (getOrCreateFlight method url now s).1 = false →
   (getOrCreateFlight method url now s).2 = s ∧
   ∃ ref fd,
     (getOrCreateFlight method url now s).1 = Joiner ref ∧
     flights s !! createFlightKey method url = Some ref ∧
     heap s !! ref = Some fd ∧ completed fd = false) ∧
  (isNew (getOrCreateFlight method url now s).1 = true →
   (getOrCreateFlight method url now s).1 =
     Originator (length (heap s)) (createFlightKey method url) ∧
   heap (getOrCreateFlight method url now s).2 =
     heap s ++ [mkFlightData (createFlightKey method url) now [] VNull VNull false
                             (Some (nextTimer s))] ∧
   flights (getOrCreateFlight method url now s).2 =
     <[createFlightKey method url := length (heap s)]> (flights s) ∧
   timers (getOrCreateFlight method url now s).2 =
     <[nextTimer s := (createFlightKey method url, timeoutMs s)]> (timers s) ∧
   totalInFlight (getStats now (getOrCreateFlight method url now s).2) =
     if isInFlight method url s then totalInFlight (getStats now s)
     else S (totalInFlight (getStats now s))).
Proof.
  assert (Hreg :
    calls (registerFlight method url now s).2 = calls s ∧
    (isNew (registerFlight method url now s).1 = false →
     (registerFlight method url now s).2 = s ∧
     ∃ ref fd,
       (registerFlight method url now s).1 = Joiner ref ∧
       flights s !! createFlightKey method url = Some ref ∧
       heap s !! ref = Some fd ∧ completed fd = false) ∧
    (isNew (registerFlight method url now s).1 = true →
     (registerFlight method url now s).1 =
       Originator (length (heap s)) (createFlightKey method url) ∧
     heap (registerFlight method url now s).2 =
       heap s ++ [mkFlightData (createFlightKey method url) now [] VNull VNull false
                               (Some (nextTimer s))] ∧
     flights (registerFlight method url now s).2 =
       <[createFlightKey method url := length (heap s)]> (flights s) ∧
     timers (registerFlight method url now s).2 =
       <[nextTimer s := (createFlightKey method url, timeoutMs s)]> (timers s) ∧
     totalInFlight (getStats now (registerFlight method url now s).2) =
       if isInFlight method url s then totalInFlight (getStats now s)
       else S (totalInFlight (getStats now s)))).
  { unfold registerFlight, isInFlight. simpl. split; [done|]. split; [done|].
    intros _. split; [done|]. split; [done|]. split; [done|]. split; [done|].
    destruct (flights s !! createFlightKey method url) as [ref|] eqn:Hk.
    - rewrite bool_decide_true by eauto. by rewrite map_size_insert_Some by eauto.
    - rewrite bool_decide_false by (by intros [? ?]). by rewrite map_size_insert_None. }
  unfold getOrCreateFlight.
  destruct (flights s !! createFlightKey method url) as [ref|] eqn:Hk; [|exact Hreg].
  destruct (heap s !! ref) as [fd|] eqn:Hfd; [|exact Hreg].
  destruct (completed fd) eqn:Hc; [exact Hreg|]. simpl.
  split; [done|]. split; [|done]. intros _. split; [done|]. by exists ref, fd.
Qed.

Lemma getOrCreateFlight_effects_witness :
  isNew (getOrCreateFlight "GET" "/data" 5 retry_fanout).1 = true ∧
  (getOrCreateFlight "GET" "/data" 5 retry_fanout).1 = Originator 1 "GET:/data" ∧
  heap (getOrCreateFlight "GET" "/data" 5 retry_fanout).2 =
    heap retry_fanout ++
    [mkFlightData "GET:/data" 5 [] VNull VNull false (Some 1%nat)] ∧
  totalInFlight (getStats 5 (getOrCreateFlight "GET" "/data" 5 retry_fanout).2) =
    totalInFlight (getStats 5 retry_fanout).
Proof.
  assert (H1 : isNew (getOrCreateFlight "GET" "/data" 5 retry_fanout).1 = true)
    by reflexivity.
  split; [assumption|].
  pose proof (proj2 (proj2 (getOrCreateFlight_effects "GET" "/data" 5 retry_fanout)) H1)
    as H.
  exact (conj (proj1 H) (conj (proj1 (proj2 H)) (proj2 (proj2 (proj2 (proj2 H)))))).
Defined.

End TrackerRecords.

Section TrackerOutcomes.

(** X7.  Whatever the waiters call, in every state reached after a
    sequence of operations no record holds both an error and a result, and a
    pending record holds neither. *)
Theorem record_outcome_exclusive bodies depth timeoutMs ops c :
  Reentrant.run bodies depth timeoutMs ops = Some c →
  ∀ ref fd, heap (world c) !! ref = Some fd →
    (error fd = VNull ∨ result fd = VNull) ∧
    (completed fd = false → error fd = VNull ∧ result fd = VNull).
Proof.
  intros Hrun ref fd Hfd. pose proof (run_sound _ _ _ _ _ Hrun) as Hs.
  by apply (sound_outcome _ _ _ Hs ref).
Qed.

Lemma record_outcome_exclusive_witness :
  ∃ c,
    Reentrant.run retry_bodies 1 30000 retry_script = Some c ∧
    heap (world c) !! 0%nat =
      Some (mkFlightData "GET:/data" 0 [sink 1] (VStr "first") VNull true (Some 0%nat)) ∧
    (error (mkFlightData "GET:/data" 0 [sink 1] (VStr "first") VNull true (Some 0%nat))
       = VNull ∨
     result (mkFlightData "GET:/data" 0 [sink 1] (VStr "first") VNull true (Some 0%nat))
       = VNull).
Proof.
  destruct (Reentrant.run retry_bodies 1 30000 retry_script) as [c|] eqn:Hrun;
    [|vm_compute in Hrun; discriminate Hrun].
  assert (H1 : heap (world c) !! 0%nat =
    Some (mkFlightData "GET:/data" 0 [sink 1] (VStr "first") VNull true (Some 0%nat))).
  { pose proof Hrun as H. vm_compute in H. injection H as <-. reflexivity. }
  exists c. split; [reflexivity|]. split; [assumption|].
  exact (proj1 (record_outcome_exclusive retry_bodies 1 30000 retry_script c Hrun
                  0%nat _ H1)).
Defined.

End TrackerOutcomes.

(** ** The fan-out with waiters that call the tracker *)

Section TrackerFanout.

(** X22.  Whatever the waiters call while they are notified: when
    [completeFlight] of a key that is in the map returns, every waiter that
    was queued on the record when it started has been called with the
    outcome (the error alone if it is truthy, the result alone otherwise),
    in the order of the queue, possibly with other calls in between; the
    record is marked completed; and the key is not in the map. *)
Theorem fanout_reaches_every_waiter bodies depth k e r c c' ref fd :
  flights (world c) !! k = Some ref →
  heap (world c) !! ref = Some fd →
  Reentrant.completeFlight (Reentrant.invoke bodies depth) k e r c = Some c' →
  flights (world c') !! k = None ∧
  (∃ fd', heap (world c') !! ref = Some fd' ∧ completed fd' = true) ∧
  ∃ rest,
    calls (world c') = calls (world c) ++ rest ∧
    ((λ cb, if truthy e then mkDelivery (cb_id cb) e VNull
            else mkDelivery (cb_id cb) VNull r) <$> waiters fd) `sublist_of` rest.
Proof. apply completeFlight_reaches. Qed.

Lemma fanout_reaches_every_waiter_witness :
  ∃ c',
    flights (world (run 30000 retry_prefix)) !! "GET:/data" = Some 0%nat ∧
    heap (world (run 30000 retry_prefix)) !! 0%nat =
      Some (mkFlightData "GET:/data" 0 [sink 1] VNull VNull false (Some 0%nat)) ∧
    Reentrant.completeFlight (Reentrant.invoke retry_bodies 1) "GET:/data"
      VNull (VStr "first") (run 30000 retry_prefix) = Some c' ∧
    flights (world c') !! "GET:/data" = None ∧
    ∃ rest,
      calls (world c') = calls (world (run 30000 retry_prefix)) ++ rest ∧
      [mkDelivery 1 VNull (VStr "first")] `sublist_of` rest.
Proof.
  assert (H1 : flights (world (run 30000 retry_prefix)) !! "GET:/data" = Some 0%nat)
    by (vm_compute; reflexivity).
  assert (H2 : heap (world (run 30000 retry_prefix)) !! 0%nat =
      Some (mkFlightData "GET:/data" 0 [sink 1] VNull VNull false (Some 0%nat)))
    by (vm_compute; reflexivity).
  destruct (Reentrant.completeFlight (Reentrant.invoke retry_bodies 1) "GET:/data"
              VNull (VStr "first") (run 30000 retry_prefix)) as [c'|] eqn:H3;
    [|vm_compute in H3; discriminate H3].
  exists c'. split; [assumption|]. split; [assumption|]. split; [reflexivity|].
  pose proof (fanout_reaches_every_waiter retry_bodies 1 "GET:/data" VNull
                (VStr "first") (run 30000 retry_prefix) c' 0%nat _ H1 H2 H3) as H.
  exact (conj (proj1 H) (proj2 (proj2 H))).
Defined.

End TrackerFanout.

(** ** Statistics and shutdown *)

Section TrackerStats.

Lemma stats_keys now (h : list FlightData) (L : list (string * nat)) :
  Forall (λ kr, ∃ fd, h !! kr.2 = Some fd ∧ key fd = kr.1) L →
  st_key <$> omap (λ kr : string * nat,
                     (λ f, mkFlightStat (key f) (startTime f) (length (waiters f))
                                        (now - startTime f)) <$> h !! kr.2) L = L.*1.
Proof.
  induction 1 as [|[k ref] L (fd & Hfd & Hkey) _ IH]; simpl in *; [done|].
  rewrite Hfd. simpl. f_equal; [exact Hkey|exact IH].
Qed.

Lemma stats_entries now (h : list FlightData) (L : list (string * nat)) st :
  st ∈ omap (λ kr : string * nat,
               (λ f, mkFlightStat (key f) (startTime f) (length (waiters f))
                                  (now - startTime f)) <$> h !! kr.2) L →
  ∃ k ref fd, (k, ref) ∈ L ∧ h !! ref = Some fd ∧
    st = mkFlightStat (key fd) (startTime fd) (length (waiters fd)) (now - startTime fd).
Proof.
  rewrite list_elem_of_omap. intros ([k ref] & Hin & Hst). simpl in Hst.
  destruct (h !! ref) as [fd|] eqn:Hfd; [|done]. injection Hst as <-.
  by exists k, ref, fd.
Qed.

(** X8.  In every reachable state [getStats()] lists each in-flight key
    once and nothing else: the list has [totalInFlight] entries, no key
    occurs twice, a key is listed exactly when it is in the map, and each
    entry reports the start time and the number of queued waiters of that
    key's record, with [duration = now - startTime]. *)
Theorem getStats_snapshot timeoutMs ops now :
  length (st_flights (getStats now (world (run timeoutMs ops)))) =
    totalInFlight (getStats now (world (run timeoutMs ops))) ∧
  NoDup (st_key <$> st_flights (getStats now (world (run timeoutMs ops)))) ∧
  (∀ k, k ∈ st_key <$> st_flights (getStats now (world (run timeoutMs ops))) ↔
        is_Some (flights (world (run timeoutMs ops)) !! k)) ∧
  (∀ st, st ∈ st_flights (getStats now (world (run timeoutMs ops))) →
     ∃ ref fd, flights (world (run timeoutMs ops)) !! st_key st = Some ref ∧
               heap (world (run timeoutMs ops)) !! ref = Some fd ∧
               st_startTime st = startTime fd ∧
               st_waiters st = length (waiters fd) ∧
               st_duration st = now - startTime fd).
Proof.
  assert (Hmap : ∀ k ref, flights (world (run timeoutMs ops)) !! k = Some ref →
    ∃ fd, heap (world (run timeoutMs ops)) !! ref = Some fd ∧ key fd = k ∧
          completed fd = false).
  { intros k ref Hk.
    destruct (sound_filed _ _ _ (run_sound_quiet timeoutMs ops) _ _ Hk)
      as (fd & Hfd & Hkey & [HA|[Hc _]]); [by apply elem_of_empty in HA|].
    by exists fd. }
  assert (Hall : Forall (λ kr : string * nat,
      ∃ fd, heap (world (run timeoutMs ops)) !! kr.2 = Some fd ∧ key fd = kr.1)
      (map_to_list (flights (world (run timeoutMs ops))))).
  { apply Forall_forall. intros [k ref] Hin. apply elem_of_map_to_list in Hin.
    destruct (Hmap _ _ Hin) as (fd & Hfd & Hkey & _). eauto. }
  pose proof (stats_keys now _ _ Hall) as Hkeys.
  split; [|split; [|split]].
  - simpl. rewrite <- (length_fmap st_key), Hkeys, length_fmap.
    apply length_map_to_list.
  - simpl. rewrite Hkeys. apply NoDup_fst_map_to_list.
  - intros k. simpl. rewrite Hkeys. rewrite list_elem_of_fmap. split.
    + intros ([k' ref] & -> & Hin). apply elem_of_map_to_list in Hin. eauto.
    + intros [ref Hk]. exists (k, ref). split; [done|]. by apply elem_of_map_to_list.
  - intros st Hin. simpl in Hin.
    destruct (stats_entries now _ _ st Hin) as (k & ref & fd & Hkr & Hfd & ->).
    apply elem_of_map_to_list in Hkr.
    destruct (Hmap _ _ Hkr) as (fd' & Hfd' & Hkey & _).
    exists ref, fd. simpl. repeat split; try done. congruence.
Qed.

Lemma getStats_snapshot_witness :
  mkFlightStat "GET:/data" 0 2 25 ∈
    st_flights (getStats 25 (world (run 30000 two_waiters))) ∧
  ∃ ref fd, flights (world (run 30000 two_waiters))
              !! st_key (mkFlightStat "GET:/data" 0 2 25) = Some ref ∧
            heap (world (run 30000 two_waiters)) !! ref = Some fd ∧
            st_startTime (mkFlightStat "GET:/data" 0 2 25) = startTime fd ∧
            st_waiters (mkFlightStat "GET:/data" 0 2 25) = length (waiters fd) ∧
            st_duration (mkFlightStat "GET:/data" 0 2 25) = 25 - startTime fd.
Proof.
  assert (H1 : mkFlightStat "GET:/data" 0 2 25 ∈
                 st_flights (getStats 25 (world (run 30000 two_waiters))))
    by (vm_compute; left).
  split; [assumption|].
  exact (proj2 (proj2 (proj2 (getStats_snapshot 30000 two_waiters 25))) _ H1).
Defined.




End TrackerStats.

(** ** Further properties of the ship *)

Section ShipMore.
Import ShipObject.

Variable JSON_stringify : value → completion value.
Variable String_ : value → completion value.
Variable Buffer_byteLength : value → completion value.
Variable res_rejects : list ResCall → ResCall → option value.

Local Abbreviation exec := (exec JSON_stringify String_ Buffer_byteLength res_rejects).
Local Abbreviation exec_all :=
  (exec_all JSON_stringify String_ Buffer_byteLength res_rejects).

Local Ltac unfold_methods :=
  unfold ShipObject.exec, status, header, deliver, json, text, html, error, send,
    already_sent, this_statusCode, console_error, set_statusCode,
    set_responseData, set_contentType, set_headersSent, res_call, modify, lift,
    bind, ret.

Local Ltac case_steps :=
  repeat (simpl;
          match goal with
          | |- context [match res_rejects ?l ?c with _ => _ end] =>
              destruct (res_rejects l c) eqn:?
          | |- context [match JSON_stringify ?v with _ => _ end] =>
              destruct (JSON_stringify v) eqn:?
          | |- context [match String_ ?v with _ => _ end] =>
              destruct (String_ v) eqn:?
          | |- context [match Buffer_byteLength ?v with _ => _ end] =>
              destruct (Buffer_byteLength v) eqn:?
          end); simpl.

(** X10.  A method call that throws (the payload cannot be serialised, or
    [res] rejects a write) happens on an unsent ship and leaves it unsent:
    [headersSent] stays false, no [res.end] has been accepted and
    [statusCode] is unchanged, so an error handler can still respond. *)
Theorem failed_call_leaves_ship_unsent c sh :
  threw (exec c sh).1 = true →
  headersSent sh = false ∧
  headersSent (exec c sh).2 = false ∧
  ended (res (exec c sh).2) = ended (res sh) ∧
  statusCode (exec c sh).2 = statusCode sh.
Proof.
  intros Hthrew. destruct (headersSent sh) eqn:Hsent.
  { destruct (exec_after_sent JSON_stringify String_ Buffer_byteLength res_rejects
                c sh Hsent) as (Hno & _). congruence. }
  split; [done|]. revert Hthrew.
  assert (Hw : ∀ l a b, ended (l ++ [WriteHead a b]) = ended l).
  { intros l a b. unfold ended. rewrite filter_app, length_app. simpl. lia. }
  destruct c as [code|name v|data ct|data|data|data|message code ts];
    unfold_methods; rewrite Hsent.
  - simpl. done.
  - case_steps; done.
  - destruct data; case_steps; rewrite ?Hw; done.
  - case_steps; rewrite ?Hw; done.
  - case_steps; rewrite ?Hw; done.
  - case_steps; rewrite ?Hw; done.
  - case_steps; rewrite ?Hw; done.
Qed.

Lemma send_sets_context sh :
  headersSent sh = false →
  (∀ data ct,
     getResponseContext (exec (CallDeliver data ct) sh).2 =
       VObject [("data", data);
                ("contentType", default (VStr "application/octet-stream") ct);
                ("statusCode", statusCode sh)]) ∧
  (∀ data,
     getResponseContext (exec (CallJson data) sh).2 =
       VObject [("data", data);
                ("contentType", VStr "application/json; charset=utf-8");
                ("statusCode", statusCode sh)]) ∧
  (∀ data,
     getResponseContext (exec (CallText data) sh).2 =
       VObject [("data", data);
                ("contentType", VStr "text/plain; charset=utf-8");
                ("statusCode", statusCode sh)]) ∧
  (∀ data,
     getResponseContext (exec (CallHtml data) sh).2 =
       VObject [("data", data);
                ("contentType", VStr "text/html; charset=utf-8");
                ("statusCode", statusCode sh)]).
Proof.
  intros Hsent. repeat split; intros data; [intros ct|..];
    unfold getResponseContext; unfold_methods; rewrite Hsent.
  - destruct data; case_steps; done.
  - case_steps; done.
  - case_steps; done.
  - case_steps; done.
Qed.

(** X11.  [getResponseContext()] after [deliver], [json], [text] or [html]
    on an unsent ship reports the data passed in, the content type of the
    method (for [deliver] the one passed, and ["application/octet-stream"]
    when it is [undefined]) and the status code the ship had, whether the
    call went through or threw; on a ship that has sent, a further call
    changes none of them. *)
Theorem getResponseContext_reports_last_send sh :
  (headersSent sh = false →
   (∀ data ct,
      getResponseContext (exec (CallDeliver data ct) sh).2 =
        VObject [("data", data);
                 ("contentType", match ct with
                                 | VUndefined => VStr "application/octet-stream"
                                 | _ => ct
                                 end);
                 ("statusCode", statusCode sh)]) ∧
   (∀ data,
      getResponseContext (exec (CallJson data) sh).2 =
        VObject [("data", data);
                 ("contentType", VStr "application/json; charset=utf-8");
                 ("statusCode", statusCode sh)]) ∧
   (∀ data,
      getResponseContext (exec (CallText data) sh).2 =
        VObject [("data", data);
                 ("contentType", VStr "text/plain; charset=utf-8");
                 ("statusCode", statusCode sh)]) ∧
   (∀ data,
      getResponseContext (exec (CallHtml data) sh).2 =
        VObject [("data", data);
                 ("contentType", VStr "text/html; charset=utf-8");
                 ("statusCode", statusCode sh)])) ∧
  (headersSent sh = true →
   ∀ c, getResponseContext (exec c sh).2 = getResponseContext sh).
Proof.
  split; [apply send_sets_context|].
  - intros Hsent c.
    destruct (exec_after_sent JSON_stringify String_ Buffer_byteLength res_rejects
                c sh Hsent) as (_ & _ & H1 & H2 & H3 & _).
    unfold getResponseContext. by rewrite H1, H2, H3.
Qed.

(** X12.  With a platform that serialises the payload and a [res] that
    accepts the writes, [status(code)] followed by [json(data)] on an unsent
    ship writes one head with that code, the JSON content type and the byte
    length of the payload, then ends the response with the payload; the same
    holds for [text] and [html] with [String(data)]. *)
Theorem status_then_send_writes_response sh code data payload len :
  headersSent sh = false →
  (∀ log c, res_rejects log c = None) →
  Buffer_byteLength payload = Returned len →
  (JSON_stringify data = Returned payload →
   res (exec_all [CallStatus code; CallJson data] sh) =
     res sh ++ [WriteHead code [("Content-Type", VStr "application/json; charset=utf-8");
                                ("Content-Length", len)];
                End payload] ∧
   headersSent (exec_all [CallStatus code; CallJson data] sh) = true) ∧
  (String_ data = Returned payload →
   res (exec_all [CallStatus code; CallText data] sh) =
     res sh ++ [WriteHead code [("Content-Type", VStr "text/plain; charset=utf-8");
                                ("Content-Length", len)];
                End payload] ∧
   headersSent (exec_all [CallStatus code; CallText data] sh) = true ∧
   res (exec_all [CallStatus code; CallHtml data] sh) =
     res sh ++ [WriteHead code [("Content-Type", VStr "text/html; charset=utf-8");
                                ("Content-Length", len)];
                End payload] ∧
   headersSent (exec_all [CallStatus code; CallHtml data] sh) = true).
Proof.
  intros Hsent Hres Hlen. split.
  - intros Hjson. unfold ShipObject.exec_all. simpl. unfold_methods.
    rewrite Hsent. simpl. rewrite ?Hsent, Hjson, Hlen. simpl.
    rewrite !Hres. simpl. rewrite <- app_assoc. done.
  - intros Hstr. unfold ShipObject.exec_all. simpl. unfold_methods.
    rewrite Hsent. simpl. rewrite ?Hsent, Hstr, Hlen. simpl.
    rewrite !Hres. simpl. rewrite <- !app_assoc. repeat split; done.
Qed.

(** X13.  [error(message, code)] on an unsent ship, with a platform that
    serialises and a [res] that accepts, writes a head with [code], and with
    500 when [code] is [undefined], whatever [status()] had set, and does
    not store that code: [statusCode], and so the [statusCode] of
    [getResponseContext()], stay what they were, next to the error object
    as [data]. *)
Theorem error_sends_own_code sh message code ts payload len :
  headersSent sh = false →
  (∀ log c, res_rejects log c = None) →
  JSON_stringify (VObject [("error", message);
                           ("status", match code with
                                      | VUndefined => VNum 500
                                      | _ => code
                                      end);
                           ("timestamp", VStr ts)]) = Returned payload →
  Buffer_byteLength payload = Returned len →
  res (exec (CallError message code ts) sh).2 =
    res sh ++ [WriteHead match code with VUndefined => VNum 500 | _ => code end
                 [("Content-Type", VStr "application/json; charset=utf-8");
                  ("Content-Length", len)];
               End payload] ∧
  headersSent (exec (CallError message code ts) sh).2 = true ∧
  statusCode (exec (CallError message code ts) sh).2 = statusCode sh ∧
  getResponseContext (exec (CallError message code ts) sh).2 =
    VObject [("data", VObject [("error", message);
                               ("status", match code with
                                          | VUndefined => VNum 500
                                          | _ => code
                                          end);
                               ("timestamp", VStr ts)]);
             ("contentType", VStr "application/json; charset=utf-8");
             ("statusCode", statusCode sh)].
Proof.
  intros Hsent Hres Hjson Hlen. unfold getResponseContext. unfold_methods.
  unfold default. rewrite Hsent. simpl. rewrite Hjson, Hlen. simpl.
  rewrite !Hres. simpl. rewrite <- app_assoc. done.
Qed.

(** X21.  [header(name, value)] followed by [deliver(data, contentType)] on
    an unsent ship whose [res] accepts the writes sets the header, writes
    one head with the ship's status code and the content type passed
    (["application/octet-stream"] when it is [undefined]) and ends the
    response with [data] itself when [data] is a string or a buffer: no
    conversion is applied and none can fail. *)
Theorem deliver_writes_raw sh name v data ct :
  headersSent sh = false →
  (∀ log c, res_rejects log c = None) →
  (∃ s, data = VStr s) ∨ (∃ b, data = VBuffer b) →
  res (exec_all [CallHeader name v; CallDeliver data ct] sh) =
    res sh ++ [SetHeader name v;
               WriteHead (statusCode sh)
                 [("Content-Type", match ct with
                                   | VUndefined => VStr "application/octet-stream"
                                   | _ => ct
                                   end)];
               End data] ∧
  headersSent (exec_all [CallHeader name v; CallDeliver data ct] sh) = true ∧
  getResponseContext (exec_all [CallHeader name v; CallDeliver data ct] sh) =
    VObject [("data", data);
             ("contentType", match ct with
                             | VUndefined => VStr "application/octet-stream"
                             | _ => ct
                             end);
             ("statusCode", statusCode sh)].
Proof.
  intros Hsent Hres Hdata. unfold ShipObject.exec_all, getResponseContext. simpl.
  unfold_methods. unfold default. rewrite Hsent. simpl. rewrite Hres. simpl.
  rewrite ?Hsent.
  destruct Hdata as [[s ->]|[b ->]]; simpl; rewrite !Hres; simpl;
    rewrite <- !app_assoc; done.
Qed.

End ShipMore.

(** ** The router *)

Section RouterProperties.

Variable toUpperCase : string → string.
Variable decodeURIComponent : value → completion value.
Variable compilePattern : string → list string * (string → option (list value)).

Local Abbreviation match_ := (RouterModel.match_ decodeURIComponent).
Local Abbreviation findRoute := (RouterModel.findRoute decodeURIComponent).
Local Abbreviation newRoute := (RouterModel.newRoute toUpperCase compilePattern).
Local Abbreviation bind := (RouterModel.bind toUpperCase compilePattern).
Local Abbreviation fill := (RouterModel.fill decodeURIComponent).

Lemma findRoute_skip pre : ∀ rest method url,
  Forall (λ r, match_ r method url = Returned (false, [])) pre →
  findRoute (pre ++ rest) method url = findRoute rest method url.
Proof.
  induction pre as [|r pre IH]; intros rest method url Hpre; [done|].
  apply Forall_cons in Hpre as [Hr Hpre]. simpl. rewrite Hr. by apply IH.
Qed.

Lemma match_false r method url p :
  match_ r method url = Returned (false, p) → p = [].
Proof.
  unfold RouterModel.match_. destruct (negb _); [by intros [= <-]|].
  destruct (RouterModel.regex r _); [|by intros [= <-]].
  by destruct (RouterModel.fill _ _ _ _ _).
Qed.

(** X14.  [findRoute] answers with the first route, in the order the routes
    were bound, whose [match] succeeds, together with that route's params;
    it answers [route: null] exactly when no route matches; and it throws
    when the first route that does not plainly fail throws (a malformed
    escape in a parameter), even if a later route would match. *)
Theorem findRoute_first_match routes method url :
  (∀ pre route post params,
     routes = pre ++ route :: post →
     Forall (λ r, match_ r method url = Returned (false, [])) pre →
     match_ route method url = Returned (true, params) →
     findRoute routes method url = Returned (Some route, params)) ∧
  (∀ pre route post e,
     routes = pre ++ route :: post →
     Forall (λ r, match_ r method url = Returned (false, [])) pre →
     match_ route method url = Thrown e →
     findRoute routes method url = Thrown e) ∧
  (∀ route params,
     findRoute routes method url = Returned (Some route, params) →
     ∃ pre post, routes = pre ++ route :: post ∧
       Forall (λ r, match_ r method url = Returned (false, [])) pre ∧
       match_ route method url = Returned (true, params)) ∧
  (findRoute routes method url = Returned (None, []) ↔
   Forall (λ r, match_ r method url = Returned (false, [])) routes).
Proof.
  split; [|split; [|split]].
  - intros pre route post params -> Hpre Hm.
    rewrite findRoute_skip by done. simpl. by rewrite Hm.
  - intros pre route post e -> Hpre Hm.
    rewrite findRoute_skip by done. simpl. by rewrite Hm.
  - induction routes as [|r routes IH]; intros route params; simpl; [done|].
    destruct (match_ r method url) as [[[|] p]|e] eqn:Hm; [| |done].
    + intros [= <- <-]. exists [], routes. by repeat split.
    + intros Hf. destruct (IH _ _ Hf) as (pre & post & -> & Hpre & Hr).
      exists (r :: pre), post. split; [done|]. split; [|done].
      apply Forall_cons. split; [|done]. by rewrite (match_false _ _ _ _ Hm) in Hm.
  - induction routes as [|r routes IH]; simpl; [by split|].
    destruct (match_ r method url) as [[[|] p]|e] eqn:Hm.
    + split; [done|]. intros H. apply Forall_cons in H as [H _]. congruence.
    + rewrite IH. split.
      * intros H. apply Forall_cons. split; [|done].
        by rewrite (match_false _ _ _ _ Hm) in Hm.
      * intros H. by apply Forall_cons in H as [_ H].
    + split; [done|]. intros H. apply Forall_cons in H as [H _]. congruence.
Qed.

(** X15.  Binding a route adds it at the end and never takes precedence
    away from the routes bound before: whatever [findRoute] answered (a
    route, or an exception) it still answers, and only a request that
    matched nothing is offered to the new route.  The new route stores the
    method in upper case and matches only requests whose method is that
    string.  After [clear()] nothing matches. *)
Theorem bind_keeps_precedence routes method pattern handler m url :
  RouterModel.getRoutes (bind method pattern handler routes) =
    RouterModel.getRoutes routes ++ [newRoute method pattern handler] ∧
  findRoute (bind method pattern handler routes) m url =
    match findRoute routes m url with
    | Returned (None, _) => findRoute [newRoute method pattern handler] m url
    | answer => answer
    end ∧
  (∀ params, match_ (newRoute method pattern handler) m url = Returned (true, params) →
             m = toUpperCase method) ∧
  findRoute (RouterModel.clear (bind method pattern handler routes)) m url =
    Returned (None, []).
Proof.
  split; [done|]. split; [|split; [|done]].
  - unfold RouterModel.bind. induction routes as [|r routes IH]; simpl.
    + by destruct (match_ _ m url) as [[[|] p]|e].
    + destruct (match_ r m url) as [[[|] p]|e]; [done| |done]. exact IH.
  - intros params. unfold RouterModel.match_, RouterModel.newRoute.
    destruct (compilePattern pattern) as [names re]. simpl.
    destruct (String.eqb m (toUpperCase method)) eqn:E; simpl; [|done].
    intros _. by apply String.eqb_eq.
Qed.

Lemma before_query_strips path query :
  contains_question path = false →
  RouterModel.before_query (path +:+ String "?"%char query) = path ∧
  RouterModel.before_query path = path.
Proof.
  induction path as [|c path IH]; simpl; [done|].
  destruct (Ascii.eqb c "?"%char); [done|]. intros H.
  destruct (IH H) as [-> ->]. done.
Qed.

Lemma findRoute_ext routes method url url' :
  (∀ r, match_ r method url = match_ r method url') →
  findRoute routes method url = findRoute routes method url'.
Proof.
  intros Hm. induction routes as [|r routes IH]; simpl; [done|].
  by rewrite Hm, IH.
Qed.

(** X16.  The query string plays no part in routing: for a path without a
    question mark, [match] and [findRoute] give the same answer for
    [path?query] as for [path]. *)
Theorem routing_ignores_query routes route method path query :
  contains_question path = false →
  match_ route method (path +:+ String "?"%char query) = match_ route method path ∧
  findRoute routes method (path +:+ String "?"%char query) =
    findRoute routes method path.
Proof.
  intros Hq.
  assert (Hm : ∀ r, match_ r method (path +:+ String "?"%char query) =
                    match_ r method path).
  { intros r. unfold RouterModel.match_.
    by destruct (before_query_strips path query Hq) as [-> ->]. }
  split; [apply Hm|by apply findRoute_ext].
Qed.

Lemma assign_fresh params name v :
  name ∉ params.*1 → RouterModel.assign params name v = params ++ [(name, v)].
Proof.
  induction params as [|[n w] params IH]; simpl; [done|].
  intros Hn. apply not_elem_of_cons in Hn as [Hne Hn].
  destruct (String.eqb n name) eqn:E; [by apply String.eqb_eq in E|].
  by rewrite IH.
Qed.

Lemma fill_zip names : ∀ i groups decoded params,
  NoDup names → "__proto__" ∉ names →
  (∀ n, n ∈ names → n ∉ params.*1) →
  Forall2 (λ g v, decodeURIComponent g = Returned v) (drop i groups) decoded →
  length decoded = length names →
  fill names i groups params = Returned (params ++ zip names decoded).
Proof.
  induction names as [|name names IH]; intros i groups decoded params Hnd Hp Hfresh Hdec Hlen.
  - simpl. by rewrite app_nil_r.
  - destruct decoded as [|v decoded]; [done|].
    destruct (drop i groups) as [|g gs] eqn:Hdrop; [by inversion Hdec|].
    apply Forall2_cons in Hdec as [Hg Hdec].
    apply NoDup_cons in Hnd as [Hnotin Hnd].
    apply not_elem_of_cons in Hp as [Hpn Hp].
    assert (Hnth : nth i groups VUndefined = g).
    { rewrite <- (take_drop i groups) at 1. rewrite Hdrop.
      assert (Hi : (i < length groups)%nat).
      { destruct (decide (i < length groups)%nat); [done|].
        rewrite drop_ge in Hdrop by lia. done. }
      rewrite app_nth2 by (rewrite length_take; lia).
      rewrite length_take. replace (i - i `min` length groups)%nat with 0%nat by lia.
      done. }
    simpl. rewrite Hnth, Hg. unfold RouterModel.obj_set.
    destruct (String.eqb name "__proto__") eqn:E;
      [apply String.eqb_eq in E; congruence|].
    rewrite assign_fresh by (apply Hfresh; left).
    rewrite (IH (S i) groups decoded).
    + by rewrite <- app_assoc.
    + done.
    + done.
    + intros n Hn. rewrite fmap_app. simpl. rewrite elem_of_app, list_elem_of_singleton.
      intros [Hin| ->]; [|done]. by apply (Hfresh n); [right|].
    + replace (drop (S i) groups) with gs; [done|].
      replace (S i) with (i + 1)%nat by lia. by rewrite <- drop_drop, Hdrop.
    + simpl in Hlen. lia.
Qed.

(** X17.  When the method is the route's, the regular expression matches
    the path before the query, and each captured group decodes, [match]
    succeeds and its params hold, for each parameter name, the decoded group
    of the same position, and nothing else (for distinct names other than
    [__proto__]).  Nothing is said of the order in which the params object
    lists its properties. *)
Theorem match_params route method url groups decoded :
  method = RouterModel.method route →
  RouterModel.regex route (RouterModel.before_query url) = Some groups →
  NoDup (RouterModel.paramNames route) →
  "__proto__" ∉ RouterModel.paramNames route →
  Forall2 (λ g v, decodeURIComponent g = Returned v) groups decoded →
  length groups = length (RouterModel.paramNames route) →
  ∃ params,
    match_ route method url = Returned (true, params) ∧
    ∀ name v,
      (name, v) ∈ params ↔
      ∃ i, RouterModel.paramNames route !! i = Some name ∧ decoded !! i = Some v.
Proof.
  intros -> Hre Hnd Hp Hdec Hlen. unfold RouterModel.match_.
  rewrite String.eqb_refl. simpl. rewrite Hre.
  rewrite (fill_zip _ 0 groups decoded []); try done.
  - eexists. split; [reflexivity|]. intros name v. simpl.
    rewrite elem_of_lookup_zip_with. split.
    + intros (i & n & w & [= -> ->] & Hn & Hw). by exists i.
    + intros (i & Hn & Hw). by exists i, name, v.
  - intros n _. apply not_elem_of_nil.
  - apply Forall2_length in Hdec. lia.
Qed.

End RouterProperties.

(** ** The callbacks of handleRequest *)

Section HogoCallbacks.
Import ShipObject HogoApp.

Variable JSON_stringify : value → completion value.
Variable String_ : value → completion value.
Variable Buffer_byteLength : value → completion value.
Variable res_rejects : list ResCall → ResCall → option value.

Local Abbreviation exec := (exec JSON_stringify String_ Buffer_byteLength res_rejects).
Local Abbreviation coalescedWaiter :=
  (coalescedWaiter JSON_stringify String_ Buffer_byteLength res_rejects).
Local Abbreviation originatorListener :=
  (originatorListener JSON_stringify Buffer_byteLength res_rejects).
Local Abbreviation defaultErrorHandler :=
  (defaultErrorHandler JSON_stringify Buffer_byteLength res_rejects).

Local Ltac unfold_methods :=
  unfold HogoApp.coalescedWaiter, HogoApp.originatorListener,
    HogoApp.defaultErrorHandler, isHeadersSent,
    ShipObject.exec, status, header, deliver, json, text, html, error, send,
    already_sent, this_statusCode, console_error, set_statusCode,
    set_responseData, set_contentType, set_headersSent, res_call, modify, lift,
    bind, ret.

(** What the waiter of a coalesced request writes for the context of a
    response. *)
Lemma coalescedWaiter_replays ts e data contentType statusCode payload len w :
  truthy e = false →
  (∀ log c, res_rejects log c = None) →
  match data with
  | VBuffer _ => payload = data
  | _ => if typeof_object data then JSON_stringify data = Returned payload
         else String_ data = Returned payload
  end →
  Buffer_byteLength payload = Returned len →
  truthy contentType = true →
  coalescedWaiter ts e
    (VObject [("data", data); ("contentType", contentType); ("statusCode", statusCode)]) w =
    (Returned (Value VUndefined),
     mkShip (res w ++ [WriteHead statusCode
                         [("Content-Type", contentType);
                          ("X-Hogo-Coalesced", VStr "true");
                          ("Content-Length", len)];
                       End payload])
            (headersSent w) (ShipObject.statusCode w) (_responseData w)
            (_contentType w) (console w)).
Proof.
  intros He Hres Hpay Hlen Hct. unfold_methods. rewrite He. simpl.
  unfold or_else. rewrite Hct.
  destruct data; simpl in Hpay; simpl; first [subst payload | rewrite Hpay];
    simpl; rewrite Hlen; simpl; rewrite !Hres; simpl; by rewrite <- app_assoc.
Qed.

(** X18.  A response sent with [json(data)] for an object [data], or with
    [text(data)] or [html(data)] for a primitive [data], reaches a coalesced
    request unchanged: fed the originator's [getResponseContext()], the
    waiter writes to its own [res] the same status code, the same content
    type and the same payload with the same length, marked
    [X-Hogo-Coalesced: true].  It writes whether or not its own ship has
    already sent, and leaves [headersSent] as it was. *)
Theorem coalesced_replay_matches_original sh w c data payload len ts :
  headersSent sh = false →
  (∀ log rc, res_rejects log rc = None) →
  Buffer_byteLength payload = Returned len →
  (c = CallJson data ∧ (∃ fields, data = VObject fields) ∧
     JSON_stringify data = Returned payload) ∨
  ((c = CallText data ∨ c = CallHtml data) ∧ typeof_object data = false ∧
     String_ data = Returned payload) →
  ∃ contentType,
    res (exec c sh).2 =
      res sh ++ [WriteHead (statusCode sh)
                   [("Content-Type", contentType); ("Content-Length", len)];
                 End payload] ∧
    res (coalescedWaiter ts VNull (getResponseContext (exec c sh).2) w).2 =
      res w ++ [WriteHead (statusCode sh)
                  [("Content-Type", contentType);
                   ("X-Hogo-Coalesced", VStr "true");
                   ("Content-Length", len)];
                End payload] ∧
    headersSent (coalescedWaiter ts VNull (getResponseContext (exec c sh).2) w).2 =
      headersSent w.
Proof.
  intros Hsent Hres Hlen Hcase.
  destruct (send_sets_context JSON_stringify String_ Buffer_byteLength res_rejects
              sh Hsent) as (_ & Hjson & Htext & Hhtml).
  assert (Hreplay : ∀ ct, truthy ct = true →
    match data with
    | VBuffer _ => payload = data
    | _ => if typeof_object data then JSON_stringify data = Returned payload
           else String_ data = Returned payload
    end →
    coalescedWaiter ts VNull
      (VObject [("data", data); ("contentType", ct); ("statusCode", statusCode sh)]) w =
      (Returned (Value VUndefined),
       mkShip (res w ++ [WriteHead (statusCode sh)
                           [("Content-Type", ct); ("X-Hogo-Coalesced", VStr "true");
                            ("Content-Length", len)];
                         End payload])
              (headersSent w) (ShipObject.statusCode w) (_responseData w)
              (_contentType w) (console w))).
  { intros ct Hct Hpay. by apply coalescedWaiter_replays. }
  destruct Hcase as [(-> & (fields & ->) & Hs)|([-> | ->] & Hobj & Hs)].
  - exists (VStr "application/json; charset=utf-8"). rewrite Hjson.
    rewrite Hreplay by done. simpl. split; [|done].
    unfold_methods. rewrite Hsent. simpl. rewrite Hs, Hlen. simpl.
    rewrite !Hres. simpl. by rewrite <- app_assoc.
  - exists (VStr "text/plain; charset=utf-8"). rewrite Htext.
    rewrite Hreplay; [|done|by destruct data; simpl in *; rewrite ?Hobj].
    simpl. split; [|done].
    unfold_methods. rewrite Hsent. simpl. rewrite Hs, Hlen. simpl.
    rewrite !Hres. simpl. by rewrite <- app_assoc.
  - exists (VStr "text/html; charset=utf-8"). rewrite Hhtml.
    rewrite Hreplay; [|done|by destruct data; simpl in *; rewrite ?Hobj].
    simpl. split; [|done].
    unfold_methods. rewrite Hsent. simpl. rewrite Hs, Hlen. simpl.
    rewrite !Hres. simpl. by rewrite <- app_assoc.
Qed.

(** X19.  Notified of a flight error that is an [Error] (the timeout error,
    or whatever the handler threw), the waiter of a coalesced request and
    the listener of the originating request answer with status 500 and an
    error object carrying the error's message, provided the ship has not
    sent yet; on a ship that has sent they write nothing.  A waiter notified
    with no error and a [null] or [undefined] outcome throws before it
    writes anything. *)
Theorem flight_error_answers_500 ts msg update sh payload len :
  (∀ log rc, res_rejects log rc = None) →
  JSON_stringify (VObject [("error", VStr msg); ("status", VNum 500);
                           ("timestamp", VStr ts)]) = Returned payload →
  Buffer_byteLength payload = Returned len →
  (headersSent sh = false →
   res (coalescedWaiter ts (VError msg) update sh).2 =
     res sh ++ [WriteHead (VNum 500)
                  [("Content-Type", VStr "application/json; charset=utf-8");
                   ("Content-Length", len)];
                End payload] ∧
   headersSent (coalescedWaiter ts (VError msg) update sh).2 = true ∧
   res (originatorListener ts (VError msg) sh).2 =
     res sh ++ [WriteHead (VNum 500)
                  [("Content-Type", VStr "application/json; charset=utf-8");
                   ("Content-Length", len)];
                End payload] ∧
   headersSent (originatorListener ts (VError msg) sh).2 = true) ∧
  (headersSent sh = true →
   res (coalescedWaiter ts (VError msg) update sh).2 = res sh ∧
   threw (coalescedWaiter ts (VError msg) update sh).1 = false ∧
   originatorListener ts (VError msg) sh = (Returned (Value VUndefined), sh)) ∧
  (∀ e, truthy e = false →
        threw (coalescedWaiter ts e VNull sh).1 = true ∧
        (coalescedWaiter ts e VNull sh).2 = sh ∧
        threw (coalescedWaiter ts e VUndefined sh).1 = true ∧
        (coalescedWaiter ts e VUndefined sh).2 = sh).
Proof.
  intros Hres Hjson Hlen. split; [|split].
  - intros Hsent. unfold_methods. simpl. rewrite Hsent. simpl.
    rewrite Hjson, Hlen. simpl. rewrite !Hres. simpl.
    rewrite <- !app_assoc. repeat split; done.
  - intros Hsent. unfold_methods. simpl. rewrite Hsent. simpl. done.
  - intros e He. unfold_methods. rewrite He. simpl. done.
Qed.

Lemma default_or_else c : default (VNum 500) (or_else c (VNum 500)) = or_else c (VNum 500).
Proof. unfold or_else. destruct (truthy c) eqn:E; [by destruct c|done]. Qed.

(** X20.  [defaultErrorHandler] never writes to a ship that has sent: it
    only logs, whatever the error.  On an unsent ship it answers with the
    error's [statusCode] when that is truthy and 500 otherwise, and with the
    error's [message] when truthy and ["Internal Server Error"] otherwise;
    for a [null] or [undefined] error it throws before writing. *)
Theorem defaultErrorHandler_responds ts error sh :
  (headersSent sh = true →
   threw (defaultErrorHandler ts error sh).1 = false ∧
   res (defaultErrorHandler ts error sh).2 = res sh ∧
   statusCode (defaultErrorHandler ts error sh).2 = statusCode sh ∧
   headersSent (defaultErrorHandler ts error sh).2 = true) ∧
  (headersSent sh = false →
   ∀ message code payload len,
     getProp error "message" = Returned message →
     getProp error "statusCode" = Returned code →
     (∀ log rc, res_rejects log rc = None) →
     JSON_stringify (VObject [("error", or_else message (VStr "Internal Server Error"));
                              ("status", or_else code (VNum 500));
                              ("timestamp", VStr ts)]) = Returned payload →
     Buffer_byteLength payload = Returned len →
     res (defaultErrorHandler ts error sh).2 =
       res sh ++ [WriteHead (or_else code (VNum 500))
                    [("Content-Type", VStr "application/json; charset=utf-8");
                     ("Content-Length", len)];
                  End payload] ∧
     headersSent (defaultErrorHandler ts error sh).2 = true) ∧
  (headersSent sh = false → error = VNull ∨ error = VUndefined →
   threw (defaultErrorHandler ts error sh).1 = true ∧
   (defaultErrorHandler ts error sh).2 = sh).
Proof.
  split; [|split].
  - intros Hsent. unfold_methods. rewrite Hsent. simpl. done.
  - intros Hsent message code payload len Hm Hc Hres Hjson Hlen.
    unfold_methods. rewrite Hsent. simpl. rewrite Hm, Hc. simpl.
    rewrite ?Hsent. fold (default (VNum 500) (or_else code (VNum 500))).
    rewrite default_or_else, Hjson, Hlen. simpl.
    rewrite !Hres. simpl. rewrite <- !app_assoc. done.
  - intros Hsent [-> | ->]; unfold_methods; rewrite Hsent; simpl; done.
Qed.

End HogoCallbacks.

(** ** The further theorems at concrete inputs *)

Section MoreInstances.
Import ShipObject.

Lemma failed_call_leaves_ship_unsent_witness :
  threw (exec failing_stringify demo_String demo_byteLength demo_rejects
           (CallJson (VNum 1)) (constructor [])).1 = true ∧
  headersSent (constructor []) = false ∧
  headersSent (exec failing_stringify demo_String demo_byteLength demo_rejects
                 (CallJson (VNum 1)) (constructor [])).2 = false ∧
  ended (res (exec failing_stringify demo_String demo_byteLength demo_rejects
                (CallJson (VNum 1)) (constructor [])).2) = ended (res (constructor [])) ∧
  statusCode (exec failing_stringify demo_String demo_byteLength demo_rejects
                (CallJson (VNum 1)) (constructor [])).2 = statusCode (constructor []).
Proof.
  assert (H1 : threw (exec failing_stringify demo_String demo_byteLength demo_rejects
                        (CallJson (VNum 1)) (constructor [])).1 = true) by reflexivity.
  split; [assumption|].
  exact (failed_call_leaves_ship_unsent failing_stringify demo_String demo_byteLength
           demo_rejects (CallJson (VNum 1)) (constructor []) H1).
Defined.

Lemma getResponseContext_reports_last_send_witness :
  headersSent (constructor []) = false ∧
  getResponseContext (exec demo_stringify demo_String demo_byteLength demo_rejects
                        (CallDeliver (VStr "raw") VUndefined) (constructor [])).2 =
    VObject [("data", VStr "raw");
             ("contentType", VStr "application/octet-stream");
             ("statusCode", VNum 200)].
Proof.
  assert (H1 : headersSent (constructor []) = false) by reflexivity.
  split; [assumption|].
  exact (proj1 (proj1 (getResponseContext_reports_last_send demo_stringify
           demo_String demo_byteLength demo_rejects (constructor [])) H1)
           (VStr "raw") VUndefined).
Defined.

Lemma status_then_send_writes_response_witness :
  headersSent (constructor []) = false ∧
  (∀ log c, demo_rejects log c = None) ∧
  demo_byteLength (VStr "{}") = Returned (VNum 2) ∧
  demo_stringify (VNum 1) = Returned (VStr "{}") ∧
  res (exec_all demo_stringify demo_String demo_byteLength demo_rejects
         [CallStatus (VNum 201); CallJson (VNum 1)] (constructor [])) =
    res (constructor []) ++
    [WriteHead (VNum 201) [("Content-Type", VStr "application/json; charset=utf-8");
                           ("Content-Length", VNum 2)];
     End (VStr "{}")].
Proof.
  assert (H1 : headersSent (constructor []) = false) by reflexivity.
  assert (H2 : ∀ log c, demo_rejects log c = None) by reflexivity.
  assert (H3 : demo_byteLength (VStr "{}") = Returned (VNum 2)) by reflexivity.
  assert (H4 : demo_stringify (VNum 1) = Returned (VStr "{}")) by reflexivity.
  split; [assumption|]. split; [assumption|]. split; [assumption|].
  split; [assumption|].
  exact (proj1 (proj1 (status_then_send_writes_response demo_stringify demo_String
           demo_byteLength demo_rejects (constructor []) (VNum 201) (VNum 1)
           (VStr "{}") (VNum 2) H1 H2 H3) H4)).
Defined.

Lemma error_sends_own_code_witness :
  headersSent (exec demo_stringify demo_String demo_byteLength demo_rejects
                 (CallStatus (VNum 201)) (constructor [])).2 = false ∧
  (∀ log c, demo_rejects log c = None) ∧
  res (exec demo_stringify demo_String demo_byteLength demo_rejects
         (CallError (VStr "boom") VUndefined "t0")
         (exec demo_stringify demo_String demo_byteLength demo_rejects
            (CallStatus (VNum 201)) (constructor [])).2).2 =
    [WriteHead (VNum 500)
       [("Content-Type", VStr "application/json; charset=utf-8");
        ("Content-Length", VNum 2)];
     End (VStr "{}")] ∧
  statusCode (exec demo_stringify demo_String demo_byteLength demo_rejects
                (CallError (VStr "boom") VUndefined "t0")
                (exec demo_stringify demo_String demo_byteLength demo_rejects
                   (CallStatus (VNum 201)) (constructor [])).2).2 = VNum 201.
Proof.
  assert (H1 : headersSent (exec demo_stringify demo_String demo_byteLength demo_rejects
                              (CallStatus (VNum 201)) (constructor [])).2 = false)
    by reflexivity.
  assert (H2 : ∀ log c, demo_rejects log c = None) by reflexivity.
  split; [assumption|]. split; [assumption|].
  pose proof (error_sends_own_code demo_stringify demo_String demo_byteLength
                demo_rejects
                (exec demo_stringify demo_String demo_byteLength demo_rejects
                   (CallStatus (VNum 201)) (constructor [])).2
                (VStr "boom") VUndefined "t0"
                (VStr "{}") (VNum 2) H1 H2 eq_refl eq_refl) as H.
  exact (conj (proj1 H) (proj1 (proj2 (proj2 H)))).
Defined.

Lemma coalesced_replay_matches_original_witness :
  headersSent (constructor []) = false ∧
  (∀ log rc, demo_rejects log rc = None) ∧
  demo_byteLength (VStr "text") = Returned (VNum 2) ∧
  ∃ contentType,
    res (exec demo_stringify demo_String demo_byteLength demo_rejects
           (CallText (VStr "hi")) (constructor [])).2 =
      res (constructor []) ++
      [WriteHead (statusCode (constructor []))
         [("Content-Type", contentType); ("Content-Length", VNum 2)];
       End (VStr "text")] ∧
    res (HogoApp.coalescedWaiter demo_stringify demo_String demo_byteLength demo_rejects
           "t0" VNull
           (getResponseContext
              (exec demo_stringify demo_String demo_byteLength demo_rejects
                 (CallText (VStr "hi")) (constructor [])).2)
           (constructor [])).2 =
      res (constructor []) ++
      [WriteHead (statusCode (constructor []))
         [("Content-Type", contentType); ("X-Hogo-Coalesced", VStr "true");
          ("Content-Length", VNum 2)];
       End (VStr "text")] ∧
    headersSent
      (HogoApp.coalescedWaiter demo_stringify demo_String demo_byteLength demo_rejects
         "t0" VNull
         (getResponseContext
            (exec demo_stringify demo_String demo_byteLength demo_rejects
               (CallText (VStr "hi")) (constructor [])).2)
         (constructor [])).2 = headersSent (constructor []).
Proof.
  assert (H1 : headersSent (constructor []) = false) by reflexivity.
  assert (H2 : ∀ log rc, demo_rejects log rc = None) by reflexivity.
  assert (H3 : demo_byteLength (VStr "text") = Returned (VNum 2)) by reflexivity.
  split; [assumption|]. split; [assumption|]. split; [assumption|].
  exact (coalesced_replay_matches_original demo_stringify demo_String demo_byteLength
           demo_rejects (constructor []) (constructor []) (CallText (VStr "hi"))
           (VStr "hi") (VStr "text") (VNum 2) "t0" H1 H2 H3
           (or_intror (conj (or_introl eq_refl) (conj eq_refl eq_refl)))).
Defined.

Lemma flight_error_answers_500_witness :
  (∀ log rc, demo_rejects log rc = None) ∧
  headersSent (constructor []) = false ∧
  res (HogoApp.coalescedWaiter demo_stringify demo_String demo_byteLength demo_rejects
         "t0" (VError "Request flight timeout exceeded") VNull (constructor [])).2 =
    res (constructor []) ++
    [WriteHead (VNum 500) [("Content-Type", VStr "application/json; charset=utf-8");
                           ("Content-Length", VNum 2)];
     End (VStr "{}")].
Proof.
  assert (H1 : ∀ log rc, demo_rejects log rc = None) by reflexivity.
  assert (H2 : headersSent (constructor []) = false) by reflexivity.
  split; [assumption|]. split; [assumption|].
  exact (proj1 (proj1 (flight_error_answers_500 demo_stringify demo_String
           demo_byteLength demo_rejects "t0" "Request flight timeout exceeded" VNull
           (constructor []) (VStr "{}") (VNum 2) H1 eq_refl eq_refl) H2)).
Defined.

Lemma defaultErrorHandler_responds_witness :
  headersSent (constructor []) = false ∧
  HogoApp.getProp (VObject [("message", VStr "gone"); ("statusCode", VNum 410)])
    "message" = Returned (VStr "gone") ∧
  HogoApp.getProp (VObject [("message", VStr "gone"); ("statusCode", VNum 410)])
    "statusCode" = Returned (VNum 410) ∧
  res (HogoApp.defaultErrorHandler demo_stringify demo_byteLength demo_rejects "t0"
         (VObject [("message", VStr "gone"); ("statusCode", VNum 410)])
         (constructor [])).2 =
    res (constructor []) ++
    [WriteHead (HogoApp.or_else (VNum 410) (VNum 500))
       [("Content-Type", VStr "application/json; charset=utf-8");
        ("Content-Length", VNum 2)];
     End (VStr "{}")].
Proof.
  assert (H1 : headersSent (constructor []) = false) by reflexivity.
  assert (H2 : HogoApp.getProp (VObject [("message", VStr "gone");
                                         ("statusCode", VNum 410)]) "message" =
               Returned (VStr "gone")) by reflexivity.
  assert (H3 : HogoApp.getProp (VObject [("message", VStr "gone");
                                         ("statusCode", VNum 410)]) "statusCode" =
               Returned (VNum 410)) by reflexivity.
  split; [assumption|]. split; [assumption|]. split; [assumption|].
  exact (proj1 (proj1 (proj2 (defaultErrorHandler_responds demo_stringify
           demo_byteLength demo_rejects "t0"
           (VObject [("message", VStr "gone"); ("statusCode", VNum 410)])
           (constructor []))) H1 (VStr "gone") (VNum 410) (VStr "{}") (VNum 2)
           H2 H3 (λ _ _, eq_refl) eq_refl eq_refl)).
Defined.

Lemma deliver_writes_raw_witness :
  headersSent (constructor []) = false ∧
  (∀ log c, demo_rejects log c = None) ∧
  res (exec_all failing_stringify failing_stringify failing_stringify demo_rejects
         [CallHeader (VStr "X-Id") (VStr "7"); CallDeliver (VStr "raw") VUndefined]
         (constructor [])) =
    [SetHeader (VStr "X-Id") (VStr "7");
     WriteHead (VNum 200) [("Content-Type", VStr "application/octet-stream")];
     End (VStr "raw")].
Proof.
  assert (H1 : headersSent (constructor []) = false) by reflexivity.
  assert (H2 : ∀ log c, demo_rejects log c = None) by reflexivity.
  split; [assumption|]. split; [assumption|].
  exact (proj1 (deliver_writes_raw failing_stringify failing_stringify failing_stringify
                  demo_rejects (constructor []) (VStr "X-Id") (VStr "7") (VStr "raw")
                  VUndefined H1 H2 (or_introl (ex_intro _ "raw" eq_refl)))).
Defined.

End MoreInstances.

Section RouterInstances.

(** The routes of the examples: a POST route bound before a GET route. *)
Lemma findRoute_first_match_witness :
  RouterModel.bind demo_toUpperCase demo_compile "GET" "/users/:id" 2
    (RouterModel.bind demo_toUpperCase demo_compile "POST" "/users/:id" 1
       RouterModel.constructor) =
    [RouterModel.newRoute demo_toUpperCase demo_compile "POST" "/users/:id" 1] ++
    RouterModel.newRoute demo_toUpperCase demo_compile "GET" "/users/:id" 2 :: [] ∧
  RouterModel.findRoute demo_decode
    (RouterModel.bind demo_toUpperCase demo_compile "GET" "/users/:id" 2
       (RouterModel.bind demo_toUpperCase demo_compile "POST" "/users/:id" 1
          RouterModel.constructor)) "GET" "/users/42" =
    Returned (Some (RouterModel.newRoute demo_toUpperCase demo_compile
                      "GET" "/users/:id" 2), [("id", VStr "42")]).
Proof.
  assert (H1 : RouterModel.bind demo_toUpperCase demo_compile "GET" "/users/:id" 2
    (RouterModel.bind demo_toUpperCase demo_compile "POST" "/users/:id" 1
       RouterModel.constructor) =
    [RouterModel.newRoute demo_toUpperCase demo_compile "POST" "/users/:id" 1] ++
    RouterModel.newRoute demo_toUpperCase demo_compile "GET" "/users/:id" 2 :: [])
    by reflexivity.
  split; [assumption|].
  refine (proj1 (findRoute_first_match demo_decode _ "GET" "/users/42") _ _ _ _ H1 _ _).
  - repeat constructor.
  - reflexivity.
Defined.

Lemma bind_keeps_precedence_witness :
  RouterModel.match_ demo_decode
    (RouterModel.newRoute demo_toUpperCase demo_compile "GET" "/users/:id" 2)
    "GET" "/users/42" = Returned (true, [("id", VStr "42")]) ∧
  "GET" = demo_toUpperCase "GET".
Proof.
  assert (H1 : RouterModel.match_ demo_decode
    (RouterModel.newRoute demo_toUpperCase demo_compile "GET" "/users/:id" 2)
    "GET" "/users/42" = Returned (true, [("id", VStr "42")])) by reflexivity.
  split; [assumption|].
  exact (proj1 (proj2 (proj2 (bind_keeps_precedence demo_toUpperCase demo_decode
           demo_compile [] "GET" "/users/:id" 2 "GET" "/users/42"))) _ H1).
Defined.

Lemma routing_ignores_query_witness :
  contains_question "/users/42" = false ∧
  RouterModel.match_ demo_decode
    (RouterModel.newRoute demo_toUpperCase demo_compile "GET" "/users/:id" 2)
    "GET" ("/users/42" +:+ String "?"%char "page=2") =
  RouterModel.match_ demo_decode
    (RouterModel.newRoute demo_toUpperCase demo_compile "GET" "/users/:id" 2)
    "GET" "/users/42".
Proof.
  assert (H1 : contains_question "/users/42" = false) by reflexivity.
  split; [assumption|].
  exact (proj1 (routing_ignores_query demo_decode []
           (RouterModel.newRoute demo_toUpperCase demo_compile "GET" "/users/:id" 2)
           "GET" "/users/42" "page=2" H1)).
Defined.

Lemma match_params_witness :
  ∃ params,
    RouterModel.match_ demo_decode
      (RouterModel.newRoute demo_toUpperCase demo_compile "GET" "/users/:id" 2)
      "GET" "/users/42?page=2" = Returned (true, params) ∧
    ∀ name v,
      (name, v) ∈ params ↔
      ∃ i, RouterModel.paramNames
             (RouterModel.newRoute demo_toUpperCase demo_compile "GET" "/users/:id" 2)
             !! i = Some name ∧
           [VStr "42"] !! i = Some v.
Proof.
  refine (match_params demo_decode
            (RouterModel.newRoute demo_toUpperCase demo_compile "GET" "/users/:id" 2)
            "GET" "/users/42?page=2" [VStr "42"] [VStr "42"] eq_refl eq_refl _ _ _ eq_refl).
  - apply NoDup_singleton.
  - intros Hin. apply list_elem_of_singleton in Hin. discriminate Hin.
  - repeat constructor.
Defined.

End RouterInstances.
